(** * SimpleSetup: the engine-assembly facade of OpenEngine's SetupHelpers

    A shallow embedding of [src/Utils/SimpleSetup.cpp].  The facade builds
    an engine, a frame, a viewport, a renderer, an input device, a default
    scene and a camera/frustum pair, wires them into the engine's event
    lists, and offers the mutators [SetScene], [SetCamera] (by camera and
    by viewing volume), [AddDataDirectory] and [EnableDebugging].

    The C++ code works on raw pointers into one process heap.  The heap is
    modelled as a growing vector of slots ([new] appends, [delete] leaves a
    tombstone, so an address is never handed out twice); pointers are
    indices into it.  Every routine runs in a state-and-failure monad over
    the process state [Sys]; [None] stands for "no behaviour described":
    undefined behaviour of C++ (a method called through a pointer that does
    not point to a live object of the expected class) or a call into code
    that is not part of this development. *)

From stdpp Require Import list strings gmap.

Set Default Proof Using "Type".
#[local] Set Warnings "-clear-no-such-hyp".

(** ** Objects and the heap *)

(** Pointers are slot numbers. *)
Abbreviation addr := nat (only parsing).

(** Identity of a texture resource (an [ITextureResourcePtr]). *)
Abbreviation Texture := nat (only parsing).

(** Classes of scene-graph nodes that occur in this development. *)
Inductive NodeClass :=
  | SceneNode
  | DirectionalLightNode
  | FrustumNode
  | GeometryNode.

(** One constructor per C++ class instantiated by the facade.  The
    arguments are the references an object keeps (constructor arguments in
    the source) and, for [Frustum] and scene nodes, the fields that the
    facade mutates through method calls. *)
Inductive Object :=
  | Engine
  | SDLFrame (width height depth : nat)
  | Viewport (frame : addr)
  | Renderer (viewport : addr)
  | SDLInput
  | ViewingVolume
  | InterpolatedViewingVolume (volume : addr)
  | Camera (volume : addr)
  | Frustum (volume : addr) (visualizeClipping : bool) (frustumNode : addr)
  | ExtRenderingView (viewport : addr)
  | TextureLoader (renderer : addr)
  | HUD
  | Node (class : NodeClass) (textures : list Texture) (subNodes : list addr)
  | StreamLogger
  | OBJPlugin
  | TGAPlugin
  | GLSLPlugin
  | TextureLoadOnInit (tl : addr)
  | QuitHandler (engine : addr)
  | ShaderLoader (tl : addr) (scene : addr).

Inductive Slot :=
  | Live (o : Object)
  | Dead.

Abbreviation Heap := (list Slot) (only parsing).

(** ** Process state *)

Inductive LogLevel := Error | Warning | Info.

(** The three lifecycle events of the engine and its stop requests. *)
Record EngineState := {
  InitializeEvent : list addr;
  ProcessEvent : list addr;
  DeinitializeEvent : list addr;
  stopRequests : nat
}.

(** The renderer: its scene root (a nullable pointer) and its events. *)
Record RendererState := {
  sceneRoot : option addr;
  RenderInitializeEvent : list addr;
  RenderProcessEvent : list addr;
  RenderPostProcessEvent : list addr
}.

(** Process-wide (static) state: the logger, the resource managers, the
    directory manager and the dot files written so far. *)
Record Statics := {
  loggers : list addr;
  log : list (LogLevel * string);
  modelPlugins : list addr;
  texturePlugins : list addr;
  shaderPlugins : list addr;
  searchPath : list string;
  dotFiles : list (string * addr)
}.

(** The facade creates exactly one engine, renderer, viewport, input device
    and texture loader and never replaces them; their mutable state is kept
    in fields of [Sys] rather than inside the heap, and the constructor of
    each of them sets its fields to the state of a new module.  These
    fields therefore describe the modules of one facade, the one that a
    statement follows from its construction on; of the event lists and
    bindings of modules that another facade built earlier, nothing is
    recorded and nothing is stated. *)
Record Sys := {
  heap : Heap;
  engineS : EngineState;
  rendererS : RendererState;
  viewingVolume : option addr;
  KeyEvent : list addr;
  loaded : list Texture;
  statics : Statics
}.

Definition with_heap (f : Heap → Heap) (s : Sys) : Sys :=
  {| heap := f (heap s); engineS := engineS s; rendererS := rendererS s;
     viewingVolume := viewingVolume s; KeyEvent := KeyEvent s;
     loaded := loaded s; statics := statics s |}.

Definition with_engineS (f : EngineState → EngineState) (s : Sys) : Sys :=
  {| heap := heap s; engineS := f (engineS s); rendererS := rendererS s;
     viewingVolume := viewingVolume s; KeyEvent := KeyEvent s;
     loaded := loaded s; statics := statics s |}.

Definition with_rendererS (f : RendererState → RendererState) (s : Sys) : Sys :=
  {| heap := heap s; engineS := engineS s; rendererS := f (rendererS s);
     viewingVolume := viewingVolume s; KeyEvent := KeyEvent s;
     loaded := loaded s; statics := statics s |}.

Definition with_viewingVolume (v : option addr) (s : Sys) : Sys :=
  {| heap := heap s; engineS := engineS s; rendererS := rendererS s;
     viewingVolume := v; KeyEvent := KeyEvent s;
     loaded := loaded s; statics := statics s |}.

Definition with_KeyEvent (f : list addr → list addr) (s : Sys) : Sys :=
  {| heap := heap s; engineS := engineS s; rendererS := rendererS s;
     viewingVolume := viewingVolume s; KeyEvent := f (KeyEvent s);
     loaded := loaded s; statics := statics s |}.

Definition with_loaded (f : list Texture → list Texture) (s : Sys) : Sys :=
  {| heap := heap s; engineS := engineS s; rendererS := rendererS s;
     viewingVolume := viewingVolume s; KeyEvent := KeyEvent s;
     loaded := f (loaded s); statics := statics s |}.

Definition with_statics (f : Statics → Statics) (s : Sys) : Sys :=
  {| heap := heap s; engineS := engineS s; rendererS := rendererS s;
     viewingVolume := viewingVolume s; KeyEvent := KeyEvent s;
     loaded := loaded s; statics := f (statics s) |}.

(** ** The monad *)

Definition M (A : Type) : Type := Sys → option (A * Sys).

Definition ret {A} (a : A) : M A := λ s, Some (a, s).

Definition bind {A B} (m : M A) (k : A → M B) : M B :=
  λ s, match m s with
       | Some (a, s') => k a s'
       | None => None
       end.

Definition fault {A} : M A := λ _, None.

Definition gets {A} (f : Sys → A) : M A := λ s, Some (f s, s).

Definition modify (f : Sys → Sys) : M unit := λ s, Some (tt, f s).

(** stdpp's monad notations: [x ← m; k] and [m ;; k]. *)
#[global] Instance M_ret : MRet M := @ret.
#[global] Instance M_bind : MBind M := λ A B k m, bind m k.

(** ** Heap primitives *)

(** [new T(...)]: the object is placed in a slot that was never used. *)
Definition new (o : Object) : M addr :=
  λ s, Some (length (heap s), with_heap (λ h, h ++ [Live o]) s).

(** Reading through a pointer needs a live object behind it. *)
Definition deref (p : addr) : M Object :=
  λ s, match heap s !! p with
       | Some (Live o) => Some (o, s)
       | _ => None
       end.

Definition store (p : addr) (o : Object) : M unit :=
  modify (with_heap (λ h, <[p := Live o]> h)).

Definition free (p : addr) : M unit :=
  modify (with_heap (λ h, <[p := Dead]> h)).

(** ** Collaborators

    The classes below live in other OpenEngine packages, not in the
    source at hand; only the calls that [SimpleSetup.cpp] makes on them
    are described, each from what the specification says of it. *)

(** Modelled from the spec: [Event::Attach], the event bus of section
    4.1.  A listener is added at the end of the list, so that firing
    follows attachment order; nothing is de-duplicated and nothing is ever
    detached. *)
Definition Attach (l : addr) (ev : list addr) : list addr := ev ++ [l].

(** Modelled from the spec: [Event::Notify], the [Fire] of section 4.1.
    Every attached listener is invoked, in attachment order,
    synchronously; firing with no listener is not an error. *)
Fixpoint Notify (handle : addr → M unit) (ev : list addr) : M unit :=
  match ev with
  | [] => mret tt
  | l :: ev' => handle l;; Notify handle ev'
  end.

(** *** Engine *)

(** Modelled from the spec: [new Engine()], the lifecycle engine of
    section 6 with its three phases and its stop request.  A new engine
    has no listener and has not been asked to stop. *)
Definition new_Engine : M addr :=
  p ← new Engine;
  modify (with_engineS (λ _,
    {| InitializeEvent := []; ProcessEvent := []; DeinitializeEvent := [];
       stopRequests := 0 |}));;
  mret p.

(** Modelled from the spec: [engine->InitializeEvent().Attach(l)]. *)
Definition Engine_InitializeEvent_Attach (l : addr) : M unit :=
  modify (with_engineS (λ e,
    {| InitializeEvent := Attach l (InitializeEvent e);
       ProcessEvent := ProcessEvent e;
       DeinitializeEvent := DeinitializeEvent e;
       stopRequests := stopRequests e |})).

(** Modelled from the spec: [engine->ProcessEvent().Attach(l)]. *)
Definition Engine_ProcessEvent_Attach (l : addr) : M unit :=
  modify (with_engineS (λ e,
    {| InitializeEvent := InitializeEvent e;
       ProcessEvent := Attach l (ProcessEvent e);
       DeinitializeEvent := DeinitializeEvent e;
       stopRequests := stopRequests e |})).

(** Modelled from the spec: [engine->DeinitializeEvent().Attach(l)]. *)
Definition Engine_DeinitializeEvent_Attach (l : addr) : M unit :=
  modify (with_engineS (λ e,
    {| InitializeEvent := InitializeEvent e;
       ProcessEvent := ProcessEvent e;
       DeinitializeEvent := Attach l (DeinitializeEvent e);
       stopRequests := stopRequests e |})).

(** Modelled from the spec: [IEngine::Stop], the stop request of
    section 6; each call is counted. *)
Definition Engine_Stop : M unit :=
  modify (with_engineS (λ e,
    {| InitializeEvent := InitializeEvent e;
       ProcessEvent := ProcessEvent e;
       DeinitializeEvent := DeinitializeEvent e;
       stopRequests := S (stopRequests e) |})).

(** *** Renderer *)

(** Modelled from the spec: [new Renderer(viewport)], the renderer of
    section 6.  A new renderer has no scene root and no listener. *)
Definition new_Renderer (viewport : addr) : M addr :=
  p ← new (Renderer viewport);
  modify (with_rendererS (λ _,
    {| sceneRoot := None; RenderInitializeEvent := [];
       RenderProcessEvent := []; RenderPostProcessEvent := [] |}));;
  mret p.

(** Modelled from the spec: [IRenderer::SetSceneRoot], which binds the
    renderer to a scene root (sections 3 and 6). *)
Definition Renderer_SetSceneRoot (root : option addr) : M unit :=
  modify (with_rendererS (λ r,
    {| sceneRoot := root;
       RenderInitializeEvent := RenderInitializeEvent r;
       RenderProcessEvent := RenderProcessEvent r;
       RenderPostProcessEvent := RenderPostProcessEvent r |})).

(** Modelled from the spec: [IRenderer::GetSceneRoot]. *)
Definition Renderer_GetSceneRoot : M (option addr) :=
  gets (λ s, sceneRoot (rendererS s)).

(** Modelled from the spec: [renderer->InitializeEvent().Attach(l)], the
    rendering-initialize phase. *)
Definition Renderer_InitializeEvent_Attach (l : addr) : M unit :=
  modify (with_rendererS (λ r,
    {| sceneRoot := sceneRoot r;
       RenderInitializeEvent := Attach l (RenderInitializeEvent r);
       RenderProcessEvent := RenderProcessEvent r;
       RenderPostProcessEvent := RenderPostProcessEvent r |})).

(** Modelled from the spec: [renderer->ProcessEvent().Attach(l)], the
    rendering-process phase. *)
Definition Renderer_ProcessEvent_Attach (l : addr) : M unit :=
  modify (with_rendererS (λ r,
    {| sceneRoot := sceneRoot r;
       RenderInitializeEvent := RenderInitializeEvent r;
       RenderProcessEvent := Attach l (RenderProcessEvent r);
       RenderPostProcessEvent := RenderPostProcessEvent r |})).

(** Modelled from the spec: [renderer->PostProcessEvent().Attach(l)],
    the post-process phase. *)
Definition Renderer_PostProcessEvent_Attach (l : addr) : M unit :=
  modify (with_rendererS (λ r,
    {| sceneRoot := sceneRoot r;
       RenderInitializeEvent := RenderInitializeEvent r;
       RenderProcessEvent := RenderProcessEvent r;
       RenderPostProcessEvent := Attach l (RenderPostProcessEvent r) |})).

(** *** Viewport and input device *)

(** Modelled from the spec: [new Viewport( *frame)], the viewport of
    section 3; it is bound to no viewing volume yet. *)
Definition new_Viewport (frame : addr) : M addr :=
  p ← new (Viewport frame);
  modify (with_viewingVolume None);;
  mret p.

(** Modelled from the spec: [Viewport::SetViewingVolume], which binds
    the viewport to exactly one provider (section 3). *)
Definition Viewport_SetViewingVolume (v : addr) : M unit :=
  modify (with_viewingVolume (Some v)).

(** Modelled from the spec: [new SDLInput()], the input device; its key
    event has no listener yet. *)
Definition new_SDLInput : M addr :=
  p ← new SDLInput;
  modify (with_KeyEvent (λ _, []));;
  mret p.

(** Modelled from the spec: [input->KeyEvent().Attach(l)]. *)
Definition Input_KeyEvent_Attach (l : addr) : M unit :=
  modify (with_KeyEvent (Attach l)).

(** *** Frustum *)

(** Modelled from the spec: [new Frustum(volume)].  A frustum decorates
    a viewing volume and adds optional debug geometry (section 3): it
    owns one scene node, handed out by [GetFrustumNode], and starts with
    clip-plane visualisation off. *)
Definition new_Frustum (volume : addr) : M addr :=
  n ← new (Node FrustumNode [] []);
  new (Frustum volume false n).

(** Modelled from the spec: [delete frustum], the destruction of the
    frustum of section 4.3.  The pointer must point to a live frustum;
    what the destructor does to the debug node is left open. *)
Definition delete_Frustum (p : addr) : M unit :=
  o ← deref p;
  match o with
  | Frustum _ _ _ => free p
  | _ => fault
  end.

(** Modelled from the spec: [Frustum::VisualizeClipping], the clip-plane
    visualisation switch of section 4.5. *)
Definition Frustum_VisualizeClipping (p : addr) (enable : bool) : M unit :=
  o ← deref p;
  match o with
  | Frustum v _ n => store p (Frustum v enable n)
  | _ => fault
  end.

(** Modelled from the spec: [Frustum::GetFrustumNode], the frustum's
    debug-visualisation node of section 4.5. *)
Definition Frustum_GetFrustumNode (p : addr) : M addr :=
  o ← deref p;
  match o with
  | Frustum _ _ n => mret n
  | _ => fault
  end.

(** *** Scene graph *)

(** Modelled from the spec: [ISceneNode::AddNode]; the new child goes
    last. *)
Definition ISceneNode_AddNode (p sub : addr) : M unit :=
  o ← deref p;
  match o with
  | Node c ts subs => store p (Node c ts (subs ++ [sub]))
  | _ => fault
  end.

(** Modelled from the spec: the walk of the texture loader.  The
    textures met by a depth-first walk from [p] through live scene nodes,
    at most [fuel] nodes deep.  A scene graph is a tree (section 3); on a
    tree stored in a heap of [n] slots no branch is longer than [n]. *)
Fixpoint visit (fuel : nat) (h : Heap) (p : addr) : list Texture :=
  match fuel with
  | 0 => []
  | S fuel' =>
      match h !! p with
      | Some (Live (Node _ ts subs)) => ts ++ flat_map (visit fuel' h) subs
      | _ => []
      end
  end.

(** *** Texture loader *)

(** Modelled from the spec: [new TextureLoader( *renderer)]; nothing is
    loaded yet. *)
Definition new_TextureLoader (renderer : addr) : M addr :=
  p ← new (TextureLoader renderer);
  modify (with_loaded (λ _, []));;
  mret p.

(** Modelled from the spec: [TextureLoader::Load], which is not in the
    source; section 6 asks of the resource loader to "load all reachable
    resources given a root".  The root is a C++ reference and must be a
    live scene node.  A walk as deep as the heap is long reaches every
    node that a chain of live scene nodes connects to the root. *)
Definition TextureLoader_Load (root : addr) : M unit :=
  o ← deref root;
  match o with
  | Node _ _ _ =>
      h ← gets heap;
      modify (with_loaded (λ ts, ts ++ visit (length h) h root))
  | _ => fault
  end.

(** *** Logger, resource managers, directory manager, dot writer *)

(** Modelled from the spec: [Logger::AddLogger], the registration of a
    process-wide sink (section 9). *)
Definition Logger_AddLogger (l : addr) : M unit :=
  modify (with_statics (λ g,
    {| loggers := loggers g ++ [l]; log := log g;
       modelPlugins := modelPlugins g; texturePlugins := texturePlugins g;
       shaderPlugins := shaderPlugins g; searchPath := searchPath g;
       dotFiles := dotFiles g |})).

(** Modelled from the spec: [logger.<level> << msg << logger.end], one
    entry on the leveled text stream of section 6. *)
Definition Logger_write (lvl : LogLevel) (msg : string) : M unit :=
  modify (with_statics (λ g,
    {| loggers := loggers g; log := log g ++ [(lvl, msg)];
       modelPlugins := modelPlugins g; texturePlugins := texturePlugins g;
       shaderPlugins := shaderPlugins g; searchPath := searchPath g;
       dotFiles := dotFiles g |})).

(** Modelled from the spec: [ResourceManager<IModelResource>::AddPlugin]. *)
Definition ResourceManager_IModelResource_AddPlugin (p : addr) : M unit :=
  modify (with_statics (λ g,
    {| loggers := loggers g; log := log g;
       modelPlugins := modelPlugins g ++ [p];
       texturePlugins := texturePlugins g;
       shaderPlugins := shaderPlugins g; searchPath := searchPath g;
       dotFiles := dotFiles g |})).

(** Modelled from the spec:
    [ResourceManager<ITextureResource>::AddPlugin]. *)
Definition ResourceManager_ITextureResource_AddPlugin (p : addr) : M unit :=
  modify (with_statics (λ g,
    {| loggers := loggers g; log := log g;
       modelPlugins := modelPlugins g;
       texturePlugins := texturePlugins g ++ [p];
       shaderPlugins := shaderPlugins g; searchPath := searchPath g;
       dotFiles := dotFiles g |})).

(** Modelled from the spec:
    [ResourceManager<IShaderResource>::AddPlugin]. *)
Definition ResourceManager_IShaderResource_AddPlugin (p : addr) : M unit :=
  modify (with_statics (λ g,
    {| loggers := loggers g; log := log g;
       modelPlugins := modelPlugins g;
       texturePlugins := texturePlugins g;
       shaderPlugins := shaderPlugins g ++ [p]; searchPath := searchPath g;
       dotFiles := dotFiles g |})).

(** Modelled from the spec: [DirectoryManager::AppendPath], the external
    path resolution of section 6. *)
Definition DirectoryManager_AppendPath (dir : string) : M unit :=
  modify (with_statics (λ g,
    {| loggers := loggers g; log := log g;
       modelPlugins := modelPlugins g; texturePlugins := texturePlugins g;
       shaderPlugins := shaderPlugins g; searchPath := searchPath g ++ [dir];
       dotFiles := dotFiles g |})).

(** Modelled from the spec: [ASDotVisitor::Write].  The graph below
    [root] goes to the named file in a format of the visitor's own
    (section 6); what is recorded is which root was written where. *)
Definition ASDotVisitor_Write (root : addr) (file : string) : M unit :=
  o ← deref root;
  match o with
  | Node _ _ _ =>
      modify (with_statics (λ g,
        {| loggers := loggers g; log := log g;
           modelPlugins := modelPlugins g; texturePlugins := texturePlugins g;
           shaderPlugins := shaderPlugins g; searchPath := searchPath g;
           dotFiles := dotFiles g ++ [(file, root)] |}))
  | _ => fault
  end.

(** ** The listener classes defined in SimpleSetup.cpp *)

(** [TextureLoadOnInit::Handle]: [arg.renderer] is the renderer that
    fired the event. *)
Definition TextureLoadOnInit_Handle : M unit :=
  root ← Renderer_GetSceneRoot;
  match root with
  | Some r => TextureLoader_Load r
  | None => mret tt
  end.

(** The renderer fires its initialize event.  Of the listener classes of
    this event only [TextureLoadOnInit] is defined in the source. *)
Definition Renderer_InitializeEvent_Notify : M unit :=
  ev ← gets (λ s, RenderInitializeEvent (rendererS s));
  Notify (λ l,
    o ← deref l;
    match o with
    | TextureLoadOnInit _ => TextureLoadOnInit_Handle
    | _ => fault
    end) ev.

(** Key symbols are the values of an enumeration. *)
Abbreviation Key := nat (only parsing).

Record KeyboardEventArg := { sym : Key }.

Section Keyboard.

(** The key symbol for escape, declared in the Devices package. *)
Variable KEY_ESCAPE : Key.

(** [QuitHandler::Handle] *)
Definition QuitHandler_Handle (arg : KeyboardEventArg) : M unit :=
  if decide (sym arg = KEY_ESCAPE) then Engine_Stop else mret tt.

(** The input device fires its key event. *)
Definition Input_KeyEvent_Notify (arg : KeyboardEventArg) : M unit :=
  ev ← gets KeyEvent;
  Notify (λ l,
    o ← deref l;
    match o with
    | QuitHandler _ => QuitHandler_Handle arg
    | _ => fault
    end) ev.

End Keyboard.

(** ** The facade *)

(** The data members of [SimpleSetup], all of them raw pointers but the
    title.  They are taken to be declared in the order of the constructor's
    initialiser list. *)
Record SimpleSetup := {
  title : string;
  engine : addr;
  frame : addr;
  viewport : addr;
  renderer : addr;
  input : addr;
  scene : addr;
  camera : addr;
  frustum : addr;
  renderingview : addr;
  textureloader : addr;
  hud : addr
}.

Definition set_scene (p : addr) (this : SimpleSetup) : SimpleSetup :=
  {| title := title this; engine := engine this; frame := frame this;
     viewport := viewport this; renderer := renderer this;
     input := input this; scene := p; camera := camera this;
     frustum := frustum this; renderingview := renderingview this;
     textureloader := textureloader this; hud := hud this |}.

Definition set_camera (p : addr) (this : SimpleSetup) : SimpleSetup :=
  {| title := title this; engine := engine this; frame := frame this;
     viewport := viewport this; renderer := renderer this;
     input := input this; scene := scene this; camera := p;
     frustum := frustum this; renderingview := renderingview this;
     textureloader := textureloader this; hud := hud this |}.

Definition set_frustum (p : addr) (this : SimpleSetup) : SimpleSetup :=
  {| title := title this; engine := engine this; frame := frame this;
     viewport := viewport this; renderer := renderer this;
     input := input this; scene := scene this; camera := camera this;
     frustum := p; renderingview := renderingview this;
     textureloader := textureloader this; hud := hud this |}.

(** [SimpleSetup::SimpleSetup(std::string title)] *)
Definition SimpleSetup_new (title : string) : M SimpleSetup :=
  engine ← new_Engine;
  frame ← new (SDLFrame 800 600 32);
  viewport ← new_Viewport frame;
  renderer ← new_Renderer viewport;
  input ← new_SDLInput;
  scene ← new (Node SceneNode [] []);
  vv ← new ViewingVolume;
  ivv ← new (InterpolatedViewingVolume vv);
  camera ← new (Camera ivv);
  frustum ← new_Frustum camera;
  renderingview ← new (ExtRenderingView viewport);
  textureloader ← new_TextureLoader renderer;
  hud ← new HUD;
  (* create a logger to std out *)
  sl ← new StreamLogger;
  Logger_AddLogger sl;;
  (* configure modules needing process time *)
  Engine_InitializeEvent_Attach frame;;
  Engine_InitializeEvent_Attach renderer;;
  Engine_InitializeEvent_Attach input;;
  Engine_ProcessEvent_Attach frame;;
  Engine_ProcessEvent_Attach renderer;;
  Engine_ProcessEvent_Attach input;;
  Engine_DeinitializeEvent_Attach frame;;
  Engine_DeinitializeEvent_Attach renderer;;
  Engine_DeinitializeEvent_Attach input;;
  (* add plug-ins *)
  obj ← new OBJPlugin;
  ResourceManager_IModelResource_AddPlugin obj;;
  tga ← new TGAPlugin;
  ResourceManager_ITextureResource_AddPlugin tga;;
  glsl ← new GLSLPlugin;
  ResourceManager_IShaderResource_AddPlugin glsl;;
  (* populate the default scene *)
  light ← new (Node DirectionalLightNode [] []);
  ISceneNode_AddNode scene light;;
  (* setup the rendering system *)
  Renderer_ProcessEvent_Attach renderingview;;
  Renderer_SetSceneRoot (Some scene);;
  Viewport_SetViewingVolume frustum;;
  tloi ← new (TextureLoadOnInit textureloader);
  Renderer_InitializeEvent_Attach tloi;;
  (* bind default keys *)
  qh ← new (QuitHandler engine);
  Input_KeyEvent_Attach qh;;
  (* setup hud *)
  Renderer_PostProcessEvent_Attach hud;;
  mret {| title := title; engine := engine; frame := frame;
          viewport := viewport; renderer := renderer; input := input;
          scene := scene; camera := camera; frustum := frustum;
          renderingview := renderingview; textureloader := textureloader;
          hud := hud |}.

Definition GetEngine (this : SimpleSetup) : addr := engine this.

Definition GetFrame (this : SimpleSetup) : addr := frame this.

Definition GetRenderer (this : SimpleSetup) : addr := renderer this.

(** The mouse, the keyboard and the joystick are the one input device. *)
Definition GetMouse (this : SimpleSetup) : addr := input this.

Definition GetKeyboard (this : SimpleSetup) : addr := input this.

Definition GetJoystick (this : SimpleSetup) : addr := input this.

Definition GetHUD (this : SimpleSetup) : addr := hud this.

Definition GetScene (this : SimpleSetup) : addr := scene this.

Definition GetCamera (this : SimpleSetup) : addr := camera this.

(** [void SimpleSetup::SetScene(ISceneNode& scene)] *)
Definition SetScene (this : SimpleSetup) (scene' : addr) : M SimpleSetup :=
  let this := set_scene scene' this in
  Renderer_SetSceneRoot (Some (scene this));;
  TextureLoader_Load scene';;
  shaderLoader ← new (ShaderLoader (textureloader this) scene');
  Engine_InitializeEvent_Attach shaderLoader;;
  mret this.

(** [void SimpleSetup::SetCamera(Camera& volume)] *)
Definition SetCamera_Camera (this : SimpleSetup) (volume : addr)
  : M SimpleSetup :=
  let this := set_camera volume this in
  delete_Frustum (frustum this);;
  f ← new_Frustum (camera this);
  let this := set_frustum f this in
  Viewport_SetViewingVolume (frustum this);;
  mret this.

(** [void SimpleSetup::SetCamera(IViewingVolume& volume)] *)
Definition SetCamera_IViewingVolume (this : SimpleSetup) (volume : addr)
  : M SimpleSetup :=
  c ← new (Camera volume);
  let this := set_camera c this in
  Viewport_SetViewingVolume (camera this);;
  mret this.

(** [void SimpleSetup::AddDataDirectory(string dir)] *)
Definition AddDataDirectory (dir : string) : M unit :=
  DirectoryManager_AppendPath dir.

(** [void SimpleSetup::EnableDebugging()].  Whether the output stream on
    ["scene.dot"] could be opened is decided by the environment;
    [good] is the value of [dotfile.good()]. *)
Definition EnableDebugging (this : SimpleSetup) (good : bool) : M unit :=
  (* Visualization of the frustum *)
  Frustum_VisualizeClipping (frustum this) true;;
  n ← Frustum_GetFrustumNode (frustum this);
  ISceneNode_AddNode (scene this) n;;
  (* Output a dot-graph of the scene *)
  if negb good then
    Logger_write Error "Can not open 'scene.dot' for output"
  else
    ASDotVisitor_Write (scene this) "scene.dot";;
    Logger_write Info "Saved physics graph to 'scene.dot'";;
    Logger_write Info
      ("To create a SVG image run: " +:+ "dot -Tsvg scene.dot > scene.svg").

(** ** Sequences of calls *)

Inductive CameraCall :=
  | ByCamera (c : addr)
  | ByViewingVolume (v : addr).

Definition camera_call (this : SimpleSetup) (c : CameraCall)
  : M SimpleSetup :=
  match c with
  | ByCamera c => SetCamera_Camera this c
  | ByViewingVolume v => SetCamera_IViewingVolume this v
  end.

(** The mutators of the facade. *)
Inductive Call :=
  | CallSetScene (scene : addr)
  | CallSetCamera (c : CameraCall)
  | CallAddDataDirectory (dir : string)
  | CallEnableDebugging (good : bool).

Definition facade_call (this : SimpleSetup) (c : Call) : M SimpleSetup :=
  match c with
  | CallSetScene p => SetScene this p
  | CallSetCamera c => camera_call this c
  | CallAddDataDirectory dir => AddDataDirectory dir;; mret this
  | CallEnableDebugging good => EnableDebugging this good;; mret this
  end.

Fixpoint facade_calls (this : SimpleSetup) (cs : list Call)
  : M SimpleSetup :=
  match cs with
  | [] => mret this
  | c :: cs' => this' ← facade_call this c; facade_calls this' cs'
  end.

Definition camera_calls (this : SimpleSetup) (cs : list CameraCall)
  : M SimpleSetup :=
  facade_calls this (map CallSetCamera cs).

Definition scene_calls (this : SimpleSetup) (roots : list addr)
  : M SimpleSetup :=
  facade_calls this (map CallSetScene roots).

(** A facade is constructed and then receives the calls [cs]. *)
Definition session (title : string) (cs : list Call) : M SimpleSetup :=
  this ← SimpleSetup_new title; facade_calls this cs.

(** An empty process: nothing allocated, nothing registered. *)
Definition boot : Sys :=
  {| heap := [];
     engineS := {| InitializeEvent := []; ProcessEvent := [];
                   DeinitializeEvent := []; stopRequests := 0 |};
     rendererS := {| sceneRoot := None; RenderInitializeEvent := [];
                     RenderProcessEvent := []; RenderPostProcessEvent := [] |};
     viewingVolume := None; KeyEvent := []; loaded := [];
     statics := {| loggers := []; log := []; modelPlugins := [];
                   texturePlugins := []; shaderPlugins := [];
                   searchPath := []; dotFiles := [] |} |}.

(** A process in which the application has already built a small scene
    (a root with two children that carry the textures 3, 4 and 5), a
    viewing volume and a camera. *)
Definition demo : Sys :=
  with_heap (λ _,
    [Live (Node SceneNode [] [1; 2]);
     Live (Node GeometryNode [3; 4] []);
     Live (Node GeometryNode [5] []);
     Live ViewingVolume;
     Live (Camera 3)]) boot.

(** ** Vocabulary of the statements *)

(** The listeners that the constructor attached to the key event and to
    the renderer's initialize event are still the only ones, the facade's
    frustum is alive, and its scene is a live node to which the renderer
    is bound. *)
Definition intact (this : SimpleSetup) (s : Sys) : Prop :=
  (∃ q, KeyEvent s = [q]
        ∧ heap s !! q = Some (Live (QuitHandler (engine this))))
  ∧ (∃ l, RenderInitializeEvent (rendererS s) = [l]
          ∧ heap s !! l = Some (Live (TextureLoadOnInit (textureloader this))))
  ∧ (∃ v b n, heap s !! frustum this = Some (Live (Frustum v b n)))
  ∧ (∃ c ts subs, heap s !! scene this = Some (Live (Node c ts subs)))
  ∧ sceneRoot (rendererS s) = Some (scene this).

Definition is_node (h : Heap) (p : addr) : bool :=
  match h !! p with
  | Some (Live (Node _ _ _)) => true
  | _ => false
  end.

Definition is_shader_loader (h : Heap) (p : addr) : bool :=
  match h !! p with
  | Some (Live (ShaderLoader _ _)) => true
  | _ => false
  end.

(** The five classes whose mutable state is kept in fields of [Sys].
    An object of any other class has all its state in its slot of the
    heap. *)
Definition is_module (o : Object) : bool :=
  match o with
  | Engine | Viewport _ | Renderer _ | SDLInput | TextureLoader _ => true
  | _ => false
  end.

(** [reach h p q]: a chain of live scene nodes leads from [p] down to
    [q], each one a child of the one before. *)
Inductive reach (h : Heap) : addr → addr → Prop :=
  | reach_here p c ts subs :
      h !! p = Some (Live (Node c ts subs)) → reach h p p
  | reach_sub p c ts subs q r :
      h !! p = Some (Live (Node c ts subs)) →
      q ∈ subs → reach h q r → reach h p r.

(** A texture is reachable from a root when a node reachable from the
    root carries it. *)
Definition reachable_texture (h : Heap) (root : addr) (t : Texture) : Prop :=
  ∃ q c ts subs,
    reach h root q ∧ h !! q = Some (Live (Node c ts subs)) ∧ t ∈ ts.

(** The volume a live frustum decorates. *)
Definition frustum_volume (h : Heap) (f : addr) : list addr :=
  match h !! f with
  | Some (Live (Frustum v _ _)) => [v]
  | _ => []
  end.

(** The viewing-volume pointers the facade holds: its [camera] and
    [frustum] members, the volume its frustum decorates, and the provider
    bound to its viewport. *)
Definition viewing_refs (this : SimpleSetup) (s : Sys) : list addr :=
  camera this :: frustum this :: frustum_volume (heap s) (frustum this)
  ++ match viewingVolume s with
     | Some v => [v]
     | None => []
     end.

(** The result of the constructor in closed form: the members, and the
    process state, when the heap had [n] slots before. *)
Definition members (t : string) (n : nat) : SimpleSetup :=
  {| title := t; engine := n; frame := n + 1; viewport := n + 2;
     renderer := n + 3; input := n + 4; scene := n + 5; camera := n + 8;
     frustum := n + 10; renderingview := n + 11; textureloader := n + 12;
     hud := n + 13 |}.

Definition wired (w : Sys) : Sys :=
  let n := length (heap w) in
  {| heap := heap w ++
       [Live Engine; Live (SDLFrame 800 600 32); Live (Viewport (n + 1));
        Live (Renderer (n + 2)); Live SDLInput;
        Live (Node SceneNode [] [n + 18]); Live ViewingVolume;
        Live (InterpolatedViewingVolume (n + 6)); Live (Camera (n + 7));
        Live (Node FrustumNode [] []); Live (Frustum (n + 8) false (n + 9));
        Live (ExtRenderingView (n + 2)); Live (TextureLoader (n + 3));
        Live HUD; Live StreamLogger; Live OBJPlugin; Live TGAPlugin;
        Live GLSLPlugin; Live (Node DirectionalLightNode [] []);
        Live (TextureLoadOnInit (n + 12)); Live (QuitHandler n)];
     engineS := {| InitializeEvent := [n + 1; n + 3; n + 4];
                   ProcessEvent := [n + 1; n + 3; n + 4];
                   DeinitializeEvent := [n + 1; n + 3; n + 4];
                   stopRequests := 0 |};
     rendererS := {| sceneRoot := Some (n + 5);
                     RenderInitializeEvent := [n + 19];
                     RenderProcessEvent := [n + 11];
                     RenderPostProcessEvent := [n + 13] |};
     viewingVolume := Some (n + 10);
     KeyEvent := [n + 20];
     loaded := [];
     statics := {| loggers := loggers (statics w) ++ [n + 14];
                   log := log (statics w);
                   modelPlugins := modelPlugins (statics w) ++ [n + 15];
                   texturePlugins := texturePlugins (statics w) ++ [n + 16];
                   shaderPlugins := shaderPlugins (statics w) ++ [n + 17];
                   searchPath := searchPath (statics w);
                   dotFiles := dotFiles (statics w) |} |}.

(** What [EnableDebugging] leaves in the static state. *)
Definition debug_statics (good : bool) (root : nat) (g : Statics) : Statics :=
  {| loggers := loggers g;
     log :=
       log g ++
       (if good then
          [(Info, "Saved physics graph to 'scene.dot'");
           (Info, "To create a SVG image run: dot -Tsvg scene.dot > scene.svg")]
        else [(Error, "Can not open 'scene.dot' for output")]);
     modelPlugins := modelPlugins g; texturePlugins := texturePlugins g;
     shaderPlugins := shaderPlugins g; searchPath := searchPath g;
     dotFiles :=
       dotFiles g ++ (if good then [("scene.dot", root)] else []) |}.

(** ** Accounts of a list of calls *)

(** The directories, the scene roots and the camera arguments that a list
    of calls passes in, in call order. *)
Definition call_dirs (cs : list Call) : list string :=
  flat_map (λ c, match c with CallAddDataDirectory d => [d] | _ => [] end) cs.

Definition call_roots (cs : list Call) : list addr :=
  flat_map (λ c, match c with CallSetScene p => [p] | _ => [] end) cs.

(** The camera replacement that comes last in a list of calls, [acc] when
    there is none. *)
Fixpoint last_camera (acc : option CameraCall) (cs : list Call)
  : option CameraCall :=
  match cs with
  | [] => acc
  | CallSetCamera c :: cs' => last_camera (Some c) cs'
  | _ :: cs' => last_camera acc cs'
  end.

(** The log entries of one [EnableDebugging], and of a list of calls. *)
Definition debug_entries (good : bool) : list (LogLevel * string) :=
  if good then
    [(Info, "Saved physics graph to 'scene.dot'");
     (Info, "To create a SVG image run: dot -Tsvg scene.dot > scene.svg")]
  else [(Error, "Can not open 'scene.dot' for output")].

Definition call_log (cs : list Call) : list (LogLevel * string) :=
  flat_map (λ c, match c with
                 | CallEnableDebugging good => debug_entries good
                 | _ => []
                 end) cs.

(** The input device fires its key event once per argument, in order. *)
Fixpoint key_events (KEY_ESCAPE : Key) (args : list KeyboardEventArg)
  : M unit :=
  match args with
  | [] => mret tt
  | arg :: args' =>
      Input_KeyEvent_Notify KEY_ESCAPE arg;; key_events KEY_ESCAPE args'
  end.

(** How many of the key events carry the escape key. *)
Definition escapes (KEY_ESCAPE : Key) (args : list KeyboardEventArg) : nat :=
  length (List.filter (λ arg, bool_decide (sym arg = KEY_ESCAPE)) args).

(** [kept n h h']: what has become of the objects of [h] in [h'].  A
    scene node has its class and textures and may have got more children
    at the end; a frustum below address [n], a dead slot and any object of
    another class are as they were. *)
Definition kept (n : nat) (h h' : Heap) : Prop :=
  ∀ p o, h !! p = Some o →
    match o with
    | Live (Node c ts subs) =>
        ∃ more, h' !! p = Some (Live (Node c ts (subs ++ more)))
    | Live (Frustum _ _ _) => p < n → h' !! p = Some o
    | _ => h' !! p = Some o
    end.

(** How the viewport is bound after a last camera replacement [last]
    ([None]: the camera [cam0] of the constructor is still current). *)
Definition bound_as (cam0 : addr) (last : option CameraCall)
    (this : SimpleSetup) (s : Sys) : Prop :=
  match last with
  | None =>
      viewingVolume s = Some (frustum this) ∧ GetCamera this = cam0
      ∧ ∃ b n, heap s !! frustum this = Some (Live (Frustum cam0 b n))
  | Some (ByCamera c) =>
      viewingVolume s = Some (frustum this) ∧ GetCamera this = c
      ∧ ∃ b n, heap s !! frustum this = Some (Live (Frustum c b n))
  | Some (ByViewingVolume v) =>
      viewingVolume s = Some (GetCamera this)
      ∧ heap s !! GetCamera this = Some (Live (Camera v))
  end.

(** ** Devices of the proofs *)

(** Reachability along chains that stay out of a set [X] of nodes. *)
Inductive reach_avoiding (h : Heap) (X : gset nat) : addr → addr → Prop :=
  | avoid_here p c ts subs :
      p ∉ X → h !! p = Some (Live (Node c ts subs)) →
      reach_avoiding h X p p
  | avoid_sub p c ts subs q r :
      p ∉ X → h !! p = Some (Live (Node c ts subs)) →
      q ∈ subs → reach_avoiding h X q r → reach_avoiding h X p r.

(** The addresses of a heap, as a finite set. *)
Definition slots (h : Heap) : gset nat := list_to_set (seq 0 (length h)).

(** * Proofs *)

(** ** Running the monad *)

Lemma bind_Some {A B} (m : M A) (k : A → M B) s a s' :
  m s = Some (a, s') → (m ≫= k) s = k a s'.
Proof. intros H. unfold mbind, M_bind, bind. by rewrite H. Qed.

Lemma bind_inv {A B} (m : M A) (k : A → M B) s b s'' :
  (m ≫= k) s = Some (b, s'') →
  ∃ a s', m s = Some (a, s') ∧ k a s' = Some (b, s'').
Proof.
  unfold mbind, M_bind, bind. destruct (m s) as [[a s']|]; [eauto|done].
Qed.

Lemma lookup_app_plus (h l : list Slot) k :
  (h ++ l) !! (length h + k) = l !! k.
Proof. rewrite lookup_app_r by lia. f_equal. lia. Qed.

Lemma deref_eq p s o : heap s !! p = Some (Live o) → deref p s = Some (o, s).
Proof. intros H. unfold deref. by rewrite H. Qed.

Lemma deref_inv p s o s' :
  deref p s = Some (o, s') → heap s !! p = Some (Live o) ∧ s' = s.
Proof.
  unfold deref. destruct (heap s !! p) as [[o'|]|]; [|done..].
  intros [= -> ->]. done.
Qed.

(** Normal form of a state after a step: records are rebuilt, the heap
    is one append, lengths are sums. *)
Ltac tidy :=
  unfold with_heap, with_engineS, with_rendererS, with_viewingVolume,
    with_KeyEvent, with_loaded, with_statics, Attach;
  cbn -[mbind lookup insert];
  rewrite ?length_app, <- ?app_assoc, <- ?Nat.add_assoc;
  cbn -[mbind lookup insert].

(** ** Equations of the collaborators' methods *)

Lemma ISceneNode_AddNode_eq p sub s c ts subs :
  heap s !! p = Some (Live (Node c ts subs)) →
  ISceneNode_AddNode p sub s
  = Some (tt, with_heap (λ h, <[p := Live (Node c ts (subs ++ [sub]))]> h) s).
Proof.
  intros H. unfold ISceneNode_AddNode.
  by rewrite (bind_Some _ _ s (Node c ts subs) s) by by apply deref_eq.
Qed.

Lemma delete_Frustum_eq p s v b n :
  heap s !! p = Some (Live (Frustum v b n)) →
  delete_Frustum p s = Some (tt, with_heap (λ h, <[p := Dead]> h) s).
Proof.
  intros H. unfold delete_Frustum.
  by rewrite (bind_Some _ _ s (Frustum v b n) s) by by apply deref_eq.
Qed.

Lemma Frustum_VisualizeClipping_eq p e s v b n :
  heap s !! p = Some (Live (Frustum v b n)) →
  Frustum_VisualizeClipping p e s
  = Some (tt, with_heap (λ h, <[p := Live (Frustum v e n)]> h) s).
Proof.
  intros H. unfold Frustum_VisualizeClipping.
  by rewrite (bind_Some _ _ s (Frustum v b n) s) by by apply deref_eq.
Qed.

Lemma Frustum_GetFrustumNode_eq p s v b n :
  heap s !! p = Some (Live (Frustum v b n)) →
  Frustum_GetFrustumNode p s = Some (n, s).
Proof.
  intros H. unfold Frustum_GetFrustumNode.
  by rewrite (bind_Some _ _ s (Frustum v b n) s) by by apply deref_eq.
Qed.

Lemma TextureLoader_Load_eq root s c ts subs :
  heap s !! root = Some (Live (Node c ts subs)) →
  TextureLoader_Load root s
  = Some (tt, with_loaded
                (λ l, l ++ visit (length (heap s)) (heap s) root) s).
Proof.
  intros H. unfold TextureLoader_Load.
  by rewrite (bind_Some _ _ s (Node c ts subs) s) by by apply deref_eq.
Qed.

Lemma ASDotVisitor_Write_eq root file s c ts subs :
  heap s !! root = Some (Live (Node c ts subs)) →
  ASDotVisitor_Write root file s
  = Some (tt, with_statics (λ g,
        {| loggers := loggers g; log := log g;
           modelPlugins := modelPlugins g; texturePlugins := texturePlugins g;
           shaderPlugins := shaderPlugins g; searchPath := searchPath g;
           dotFiles := dotFiles g ++ [(file, root)] |}) s).
Proof.
  intros H. unfold ASDotVisitor_Write.
  by rewrite (bind_Some _ _ s (Node c ts subs) s) by by apply deref_eq.
Qed.

(** ** The constructor in closed form *)

Ltac step :=
  first
    [ erewrite bind_Some by reflexivity
    | erewrite bind_Some
        by (eapply ISceneNode_AddNode_eq; cbn; rewrite lookup_app_plus;
            reflexivity) ];
  tidy; rewrite ?insert_app_r; tidy.

Lemma SimpleSetup_new_eq t w :
  SimpleSetup_new t w = Some (members t (length (heap w)), wired w).
Proof.
  destruct w as [h e r v k l [g1 g2 g3 g4 g5 g6 g7]].
  rewrite <- (app_nil_r h) at 1.
  unfold SimpleSetup_new.
  repeat step.
  rewrite Nat.add_0_r. unfold mret, M_ret, ret, members, wired. cbn.
  by rewrite ?app_nil_r.
Qed.

(** ** The texture walk reaches every reachable node *)

Section Walk.

Variable h : list Slot.

Lemma reach_avoiding_empty p q : reach h p q → reach_avoiding h ∅ p q.
Proof.
  induction 1.
  - eapply avoid_here; [set_solver|done].
  - eapply avoid_sub; [set_solver|done..].
Qed.

(** A chain from [q] to [r] either never meets [p], or its part after
    the last visit of [p] is a chain that leaves [p] for good. *)
Lemma reach_avoiding_last X p q r :
  reach_avoiding h X q r →
  reach_avoiding h (X ∪ {[p]}) q r
  ∨ p = r
  ∨ ∃ c ts subs q',
      h !! p = Some (Live (Node c ts subs)) ∧ q' ∈ subs
      ∧ reach_avoiding h (X ∪ {[p]}) q' r.
Proof.
  induction 1 as [q c ts subs Hq Hn|q c ts subs q' r Hq Hn Hin _ IH].
  - destruct (decide (p = q)) as [->|Hne]; [by right; left|].
    left. eapply avoid_here; [set_solver|done].
  - destruct IH as [IH|IH]; [|by right].
    destruct (decide (p = q)) as [->|Hne].
    + right; right. eauto 10.
    + left. eapply avoid_sub; [set_solver|done..].
Qed.

Lemma reach_avoiding_head X p r :
  reach_avoiding h X p r →
  (p ∉ X) ∧ (∃ c ts subs, h !! p = Some (Live (Node c ts subs)))
  ∧ (p = r
     ∨ ∃ c ts subs q,
         h !! p = Some (Live (Node c ts subs)) ∧ q ∈ subs
         ∧ reach_avoiding h (X ∪ {[p]}) q r).
Proof.
  intros Hr. inversion Hr as [? c ts subs Hp Hn|? c ts subs q ? Hp Hn Hin Hq];
    subst; (split; [done|split; [eauto|]]); [by left|].
  destruct (reach_avoiding_last X p q r Hq) as [?|[?|?]];
    [right; eauto 10|by left|by right].
Qed.

Lemma elem_of_slots p o : h !! p = Some o → p ∈ slots h.
Proof.
  intros Hp. apply lookup_lt_Some in Hp.
  unfold slots. rewrite elem_of_list_to_set, elem_of_seq. lia.
Qed.

Lemma size_slots : size (slots h) = length h.
Proof.
  unfold slots. rewrite size_list_to_set by apply NoDup_seq.
  apply length_seq.
Qed.

Lemma visit_avoiding fuel : ∀ X p r c ts subs t,
  reach_avoiding h X p r →
  size (slots h ∖ X) ≤ fuel →
  h !! r = Some (Live (Node c ts subs)) → t ∈ ts →
  t ∈ visit fuel h p.
Proof.
  induction fuel as [|fuel IH]; intros X p r c ts subs t Hr Hsz Hn Ht;
    apply reach_avoiding_head in Hr as (HpX & (c' & ts' & subs' & Hp) & Hr).
  - assert (p ∈ slots h ∖ X) as Hin
      by (apply elem_of_difference; eauto using elem_of_slots).
    apply Nat.le_0_r, size_empty_iff in Hsz. set_solver.
  - cbn. rewrite Hp. apply elem_of_app.
    destruct Hr as [->|(c'' & ts'' & subs'' & q & Hp' & Hq & Hr)].
    + left. congruence.
    + right. rewrite Hp in Hp'. injection Hp' as <- <- <-.
      apply list_elem_of_In, in_flat_map. exists q.
      split; [by apply list_elem_of_In|]. apply list_elem_of_In.
      eapply (IH (X ∪ {[p]})); [done| |done..].
      assert (slots h ∖ (X ∪ {[p]}) ⊂ slots h ∖ X) as Hsub.
      { apply elem_of_slots in Hp. set_solver. }
      apply subset_size in Hsub. lia.
Qed.

(** A walk as deep as the heap is long finds every reachable texture. *)
Lemma visit_complete root t :
  reachable_texture h root t → t ∈ visit (length h) h root.
Proof.
  intros (q & c & ts & subs & Hr & Hq & Ht).
  eapply (visit_avoiding _ ∅); [by apply reach_avoiding_empty| |done..].
  rewrite <- size_slots. apply subseteq_size. set_solver.
Qed.

End Walk.

(** ** Equations of the facade's mutators *)

Lemma SetScene_eq this root s c ts subs :
  heap s !! root = Some (Live (Node c ts subs)) →
  SetScene this root s
  = Some (set_scene root this,
          {| heap := heap s ++ [Live (ShaderLoader (textureloader this) root)];
             engineS :=
               {| InitializeEvent :=
                    InitializeEvent (engineS s) ++ [length (heap s)];
                  ProcessEvent := ProcessEvent (engineS s);
                  DeinitializeEvent := DeinitializeEvent (engineS s);
                  stopRequests := stopRequests (engineS s) |};
             rendererS :=
               {| sceneRoot := Some root;
                  RenderInitializeEvent :=
                    RenderInitializeEvent (rendererS s);
                  RenderProcessEvent := RenderProcessEvent (rendererS s);
                  RenderPostProcessEvent :=
                    RenderPostProcessEvent (rendererS s) |};
             viewingVolume := viewingVolume s;
             KeyEvent := KeyEvent s;
             loaded := loaded s ++ visit (length (heap s)) (heap s) root;
             statics := statics s |}).
Proof.
  intros H. unfold SetScene.
  erewrite bind_Some by reflexivity.
  erewrite bind_Some by (eapply TextureLoader_Load_eq; cbn; exact H).
  erewrite bind_Some by reflexivity.
  erewrite bind_Some by reflexivity.
  reflexivity.
Qed.

Lemma SetCamera_Camera_eq this c s v b n :
  heap s !! frustum this = Some (Live (Frustum v b n)) →
  SetCamera_Camera this c s
  = Some (set_frustum (length (heap s) + 1) (set_camera c this),
          with_viewingVolume (Some (length (heap s) + 1))
            (with_heap
               (λ h, <[frustum this := Dead]> h
                     ++ [Live (Node FrustumNode [] []);
                         Live (Frustum c false (length h))]) s)).
Proof.
  intros H. unfold SetCamera_Camera, new_Frustum.
  erewrite bind_Some by (eapply delete_Frustum_eq; cbn; exact H).
  erewrite bind_Some by (erewrite bind_Some by reflexivity; reflexivity).
  erewrite bind_Some by reflexivity.
  unfold mret, M_ret, ret. tidy. rewrite !length_insert. reflexivity.
Qed.

Lemma SetCamera_IViewingVolume_eq this v s :
  SetCamera_IViewingVolume this v s
  = Some (set_camera (length (heap s)) this,
          with_viewingVolume (Some (length (heap s)))
            (with_heap (λ h, h ++ [Live (Camera v)]) s)).
Proof. reflexivity. Qed.

Lemma EnableDebugging_eq this good s v b n c ts subs :
  heap s !! frustum this = Some (Live (Frustum v b n)) →
  heap s !! scene this = Some (Live (Node c ts subs)) →
  EnableDebugging this good s
  = Some (tt,
          with_statics (debug_statics good (scene this))
            (with_heap
               (λ h, <[scene this := Live (Node c ts (subs ++ [n]))]>
                       (<[frustum this := Live (Frustum v true n)]> h)) s)).
Proof.
  intros Hf Hs. unfold EnableDebugging.
  assert (frustum this ≠ scene this) as Hne by congruence.
  pose proof (lookup_lt_Some _ _ _ Hf) as Hlf.
  pose proof (lookup_lt_Some _ _ _ Hs) as Hls.
  erewrite bind_Some by (eapply Frustum_VisualizeClipping_eq; exact Hf).
  erewrite bind_Some
    by (eapply Frustum_GetFrustumNode_eq; cbn;
        by apply list_lookup_insert_eq).
  erewrite bind_Some
    by (eapply ISceneNode_AddNode_eq; cbn;
        rewrite list_lookup_insert_ne by done; exact Hs).
  destruct good; cbn [negb].
  - erewrite bind_Some
      by (eapply ASDotVisitor_Write_eq; cbn; apply list_lookup_insert_eq;
          by rewrite length_insert).
    erewrite bind_Some by reflexivity.
    unfold Logger_write, modify, with_statics, with_heap, debug_statics.
    cbn. by rewrite <- ?app_assoc, ?app_nil_r.
  - unfold Logger_write, modify, with_statics, with_heap, debug_statics.
    cbn. by rewrite ?app_nil_r.
Qed.

(** ** What every call preserves *)

Lemma SetScene_inv this root s this' s' :
  SetScene this root s = Some (this', s') →
  ∃ c ts subs, heap s !! root = Some (Live (Node c ts subs)).
Proof.
  unfold SetScene. intros H.
  apply bind_inv in H as (? & s1 & [= <- <-] & H).
  apply bind_inv in H as (? & s2 & H & _).
  unfold TextureLoader_Load in H.
  apply bind_inv in H as (o & s3 & H & Ho).
  apply deref_inv in H as [H ->]. destruct o; try done. eauto.
Qed.

Lemma facade_call_intact this c s this' s' :
  intact this s → facade_call this c s = Some (this', s') →
  intact this' s'.
Proof.
  intros ((q & Hk & Hq) & (l & Hr & Hl) & (v & b & n & Hf)
          & (c0 & ts0 & subs0 & Hs) & Hroot) H.
  pose proof (lookup_lt_Some _ _ _ Hf) as Hlf.
  pose proof (lookup_lt_Some _ _ _ Hs) as Hls.
  assert (q ≠ frustum this) as Hqf by congruence.
  assert (l ≠ frustum this) as Hlf' by congruence.
  assert (scene this ≠ frustum this) as Hsf by congruence.
  assert (q ≠ scene this) as Hqs by congruence.
  assert (l ≠ scene this) as Hls' by congruence.
  destruct c as [root|[c|vol]|dir|good]; cbn in H.
  - destruct (SetScene_inv _ _ _ _ _ H) as (c & ts & subs & Hn).
    rewrite (SetScene_eq _ _ _ _ _ _ Hn) in H. injection H as <- <-.
    unfold intact; cbn.
    split_and!; eauto 10 using lookup_app_l_Some.
  - rewrite (SetCamera_Camera_eq _ _ _ _ _ _ Hf) in H. injection H as <- <-.
    unfold intact; cbn. split_and!; [| | | |done].
    + exists q. split; [done|]. apply lookup_app_l_Some.
      by rewrite list_lookup_insert_ne.
    + exists l. split; [done|]. apply lookup_app_l_Some.
      by rewrite list_lookup_insert_ne.
    + eexists _, _, _.
      rewrite <- (length_insert (heap s) (frustum this) Dead).
      by rewrite lookup_app_plus.
    + eexists _, _, _. apply lookup_app_l_Some.
      by rewrite list_lookup_insert_ne.
  - rewrite SetCamera_IViewingVolume_eq in H. injection H as <- <-.
    unfold intact; cbn. split_and!; eauto 10 using lookup_app_l_Some.
  - injection H as <- <-. unfold intact; cbn. split_and!; eauto 10.
  - apply bind_inv in H as ([] & s1 & H & [= <- <-]).
    rewrite (EnableDebugging_eq _ _ _ _ _ _ _ _ _ Hf Hs) in H.
    injection H as <-.
    unfold intact; cbn. split_and!; [| | | |done].
    + exists q. split; [done|]. by rewrite !list_lookup_insert_ne.
    + exists l. split; [done|]. by rewrite !list_lookup_insert_ne.
    + eexists _, _, _. rewrite list_lookup_insert_ne by done.
      by apply list_lookup_insert_eq.
    + eexists _, _, _. apply list_lookup_insert_eq.
      by rewrite length_insert.
Qed.

Lemma facade_calls_intact cs : ∀ this s this' s',
  intact this s → facade_calls this cs s = Some (this', s') →
  intact this' s'.
Proof.
  induction cs as [|c cs IH]; intros this s this' s' Hi H; cbn in H.
  - by injection H as <- <-.
  - apply bind_inv in H as (this1 & s1 & H1 & H).
    eauto using facade_call_intact.
Qed.

Lemma SimpleSetup_new_intact t w :
  intact (members t (length (heap w))) (wired w).
Proof.
  unfold intact; cbn. split_and!; [| | | |done].
  - eexists. split; [done|]. by rewrite lookup_app_plus.
  - eexists. split; [done|]. by rewrite lookup_app_plus.
  - eexists _, _, _. by rewrite lookup_app_plus.
  - eexists _, _, _. by rewrite lookup_app_plus.
Qed.

Lemma session_intact t cs w this s :
  session t cs w = Some (this, s) → intact this s.
Proof.
  unfold session. rewrite (bind_Some _ _ _ _ _ (SimpleSetup_new_eq t w)).
  apply facade_calls_intact, SimpleSetup_new_intact.
Qed.

(** ** Sequences of calls *)

Lemma camera_calls_last cs : ∀ this s,
  (∃ v b n, heap s !! frustum this = Some (Live (Frustum v b n))) →
  ∃ this' s',
    camera_calls this cs s = Some (this', s')
    ∧ (∃ v b n, heap s' !! frustum this' = Some (Live (Frustum v b n)))
    ∧ match last cs with
      | None => this' = this ∧ s' = s
      | Some (ByCamera c) =>
          viewingVolume s' = Some (frustum this')
          ∧ frustum this' = length (heap s') - 1
          ∧ heap s' !! frustum this'
            = Some (Live (Frustum c false (length (heap s') - 2)))
          ∧ GetCamera this' = c
      | Some (ByViewingVolume v) =>
          viewingVolume s' = Some (GetCamera this')
          ∧ GetCamera this' = length (heap s') - 1
          ∧ heap s' !! GetCamera this' = Some (Live (Camera v))
      end.
Proof.
  induction cs as [|c cs IH]; intros this s Hf.
  { eexists _, _. by split_and!. }
  destruct Hf as (v & b & n & Hf).
  pose proof (lookup_lt_Some _ _ _ Hf) as Hlf.
  unfold camera_calls. cbn [map facade_calls facade_call].
  destruct c as [c|vol]; cbn [camera_call].
  - rewrite (bind_Some _ _ _ _ _ (SetCamera_Camera_eq this c s v b n Hf)).
    set (this1 := set_frustum _ _). set (s1 := with_viewingVolume _ _).
    assert (length (heap s1) = length (heap s) + 2) as Hlen
      by (cbn; rewrite length_app, length_insert; cbn; lia).
    assert (heap s1 !! frustum this1
            = Some (Live (Frustum c false (length (heap s))))) as Hf1.
    { cbn. rewrite <- (length_insert (heap s) (frustum this) Dead) at 1.
      by rewrite lookup_app_plus. }
    destruct (IH this1 s1) as (this' & s' & Hrun & Hf' & Hlast); [eauto|].
    exists this', s'. split; [done|]. split; [done|].
    destruct cs as [|c' cs];
      [|change (last (_ :: c' :: cs)) with (last (c' :: cs));
        by destruct (last (c' :: cs)) as [[]|] eqn:E;
          [..|apply last_None in E]].
    destruct Hlast as [-> ->]. cbn [last]. rewrite Hlen.
    replace (length (heap s) + 2 - 1) with (length (heap s) + 1) by lia.
    replace (length (heap s) + 2 - 2) with (length (heap s)) by lia.
    by split_and!.
  - rewrite (bind_Some _ _ _ _ _ (SetCamera_IViewingVolume_eq this vol s)).
    set (this1 := set_camera _ _). set (s1 := with_viewingVolume _ _).
    assert (length (heap s1) = length (heap s) + 1) as Hlen
      by (cbn; rewrite length_app; cbn; lia).
    assert (heap s1 !! frustum this1 = Some (Live (Frustum v b n))) as Hf1
      by (cbn; by apply lookup_app_l_Some).
    destruct (IH this1 s1) as (this' & s' & Hrun & Hf' & Hlast); [eauto|].
    exists this', s'. split; [done|]. split; [done|].
    destruct cs as [|c' cs];
      [|change (last (_ :: c' :: cs)) with (last (c' :: cs));
        by destruct (last (c' :: cs)) as [[]|] eqn:E;
          [..|apply last_None in E]].
    destruct Hlast as [-> ->]. cbn [last]. rewrite Hlen.
    replace (length (heap s) + 1 - 1) with (length (heap s)) by lia.
    split_and!; [done..|]. cbn. by apply list_lookup_middle.
Qed.

Lemma scene_calls_eq roots : ∀ this s,
  Forall (λ p, is_node (heap s) p = true) roots →
  ∃ this' s',
    scene_calls this roots s = Some (this', s')
    ∧ frame this' = frame this ∧ renderer this' = renderer this
    ∧ input this' = input this
    ∧ heap s'
      = heap s
        ++ map (λ p, Live (ShaderLoader (textureloader this) p)) roots
    ∧ InitializeEvent (engineS s')
      = InitializeEvent (engineS s) ++ seq (length (heap s)) (length roots).
Proof.
  induction roots as [|p roots IH]; intros this s Hall.
  { eexists _, _. split; [done|]. by rewrite !app_nil_r. }
  apply Forall_cons in Hall as [Hp Hall].
  unfold is_node in Hp.
  destruct (heap s !! p) as [[[]|]|] eqn:Hn; try done.
  unfold scene_calls. cbn [map facade_calls facade_call].
  rewrite (bind_Some _ _ _ _ _ (SetScene_eq this p s _ _ _ Hn)).
  match goal with |- context [facade_calls ?a _ ?b] =>
    destruct (IH a b) as (this' & s' & Hrun & Hfr & Hre & Hin & Hh & He)
  end.
  { cbn. eapply Forall_impl; [exact Hall|]. intros q Hq. unfold is_node in *.
    destruct (heap s !! q) as [o|] eqn:Hq'; [|done].
    by rewrite (lookup_app_l_Some _ _ _ _ Hq'). }
  exists this', s'. split; [exact Hrun|].
  rewrite Hh, He. cbn. rewrite length_app, <- !app_assoc. cbn.
  by rewrite Nat.add_1_r.
Qed.

(** ** The listeners *)

Lemma Notify_one (handle : nat → M unit) l s s' :
  handle l s = Some (tt, s') → Notify handle [l] s = Some (tt, s').
Proof. intros H. cbn. by rewrite (bind_Some _ _ _ _ _ H). Qed.

Lemma TextureLoadOnInit_Handle_null s :
  sceneRoot (rendererS s) = None → TextureLoadOnInit_Handle s = Some (tt, s).
Proof.
  intros H. unfold TextureLoadOnInit_Handle.
  erewrite bind_Some by reflexivity. by rewrite H.
Qed.

Lemma TextureLoadOnInit_Handle_root s root c ts subs :
  sceneRoot (rendererS s) = Some root →
  heap s !! root = Some (Live (Node c ts subs)) →
  TextureLoadOnInit_Handle s
  = Some (tt, with_loaded
                (λ l, l ++ visit (length (heap s)) (heap s) root) s).
Proof.
  intros H Hn. unfold TextureLoadOnInit_Handle.
  erewrite bind_Some by reflexivity. rewrite H.
  by eapply TextureLoader_Load_eq.
Qed.

Lemma Renderer_InitializeEvent_Notify_eq s l tl s' :
  RenderInitializeEvent (rendererS s) = [l] →
  heap s !! l = Some (Live (TextureLoadOnInit tl)) →
  TextureLoadOnInit_Handle s = Some (tt, s') →
  Renderer_InitializeEvent_Notify s = Some (tt, s').
Proof.
  intros Hev Hl H. unfold Renderer_InitializeEvent_Notify.
  erewrite bind_Some by reflexivity. rewrite Hev.
  apply Notify_one. by rewrite (bind_Some _ _ _ _ _ (deref_eq _ _ _ Hl)).
Qed.

Section KeyboardLemmas.

Variable KEY_ESCAPE : nat.

Lemma Input_KeyEvent_Notify_eq s q e arg s' :
  KeyEvent s = [q] →
  heap s !! q = Some (Live (QuitHandler e)) →
  QuitHandler_Handle KEY_ESCAPE arg s = Some (tt, s') →
  Input_KeyEvent_Notify KEY_ESCAPE arg s = Some (tt, s').
Proof.
  intros Hev Hq H. unfold Input_KeyEvent_Notify.
  erewrite bind_Some by reflexivity. rewrite Hev.
  apply Notify_one. by rewrite (bind_Some _ _ _ _ _ (deref_eq _ _ _ Hq)).
Qed.

End KeyboardLemmas.

(** ** The model at work *)

Example SimpleSetup_new_boot :
  SimpleSetup_new "demo" boot = Some (members "demo" 0, wired boot).
Proof. reflexivity. Qed.

Example visit_demo : visit 5 (heap demo) 0 = [3; 4; 5].
Proof. reflexivity. Qed.

(** The application's scene is set, debugging is enabled, the camera is
    replaced by viewing volume and then by camera. *)
Example session_demo :
  ∃ this s,
    session "demo"
      [CallSetScene 0; CallEnableDebugging true;
       CallSetCamera (ByViewingVolume 3); CallSetCamera (ByCamera 4)] demo
    = Some (this, s)
    ∧ GetScene this = 0 ∧ GetCamera this = 4 ∧ frustum this = 29
    ∧ loaded s = [3; 4; 5]
    ∧ InitializeEvent (engineS s) = [6; 8; 9; 26]
    ∧ viewingVolume s = Some 29
    ∧ heap s !! 15 = Some Dead
    ∧ heap s !! 27 = Some (Live (Camera 3))
    ∧ heap s !! 29 = Some (Live (Frustum 4 false 28))
    ∧ dotFiles (statics s) = [("scene.dot", 0)].
Proof. eexists _, _. split; [vm_compute; reflexivity|]. by split_and!. Qed.

(** Debugging enabled twice puts the frustum's node into the scene
    twice. *)
Example EnableDebugging_twice :
  ∃ this s,
    session "demo" [CallEnableDebugging false; CallEnableDebugging false] boot
    = Some (this, s)
    ∧ heap s !! GetScene this = Some (Live (Node SceneNode [] [18; 9; 9]))
    ∧ length (log (statics s)) = 2.
Proof. eexists _, _. split; [vm_compute; reflexivity|]. by split_and!. Qed.

(** A call through a dangling pointer has no behaviour: the scene passed
    to [SetScene] is not an object of the heap. *)
Example SetScene_dangling :
  session "demo" [CallSetScene 99] boot = None.
Proof. reflexivity. Qed.

(** * Properties of the facade *)

(** C1.  For a scene root [root] (a live scene node), [SetScene] returns;
    afterwards [GetScene] and the renderer's scene root are [root]; every
    texture reachable from [root] is among the loaded ones in the state the
    call returns; the heap has grown by one [ShaderLoader] bound to the
    texture loader and [root], which is the last listener of the engine's
    initialize event; and every object of the old heap, the previous scene
    root among them, is still there. *)
Theorem SetScene_rebinds_loads_attaches this root s c ts subs :
  heap s !! root = Some (Live (Node c ts subs)) →
  ∃ this' s',
    SetScene this root s = Some (this', s')
    ∧ GetScene this' = root
    ∧ sceneRoot (rendererS s') = Some root
    ∧ (∀ t, reachable_texture (heap s) root t → t ∈ loaded s')
    ∧ heap s' = heap s ++ [Live (ShaderLoader (textureloader this) root)]
    ∧ InitializeEvent (engineS s')
      = InitializeEvent (engineS s) ++ [length (heap s)]
    ∧ (∀ p o, heap s !! p = Some o → heap s' !! p = Some o).
Proof.
  intros H. eexists _, _. split; [by eapply SetScene_eq|].
  cbn. repeat split.
  - intros t Ht. apply elem_of_app. right. by apply visit_complete.
  - intros p o Hp. by apply lookup_app_l_Some.
Qed.

(** The application's scene of [demo], set on a facade built there. *)
Lemma SetScene_rebinds_loads_attaches_witness :
  heap (wired demo) !! 0 = Some (Live (Node SceneNode [] [1; 2]))
  ∧ ∃ this' s',
      SetScene (members "demo" 5) 0 (wired demo) = Some (this', s')
      ∧ sceneRoot (rendererS s') = Some 0
      ∧ (∀ t, reachable_texture (heap (wired demo)) 0 t → t ∈ loaded s')
      ∧ InitializeEvent (engineS s') = [6; 8; 9; 26].
Proof.
  split; [reflexivity|].
  destruct (SetScene_rebinds_loads_attaches (members "demo" 5) 0
              (wired demo) SceneNode [] [1; 2] eq_refl)
    as (this' & s' & Hrun & _ & Hroot & Hloaded & _ & Hinit & _).
  exists this', s'. split_and!; [exact Hrun|exact Hroot|exact Hloaded|].
  rewrite Hinit. reflexivity.
Defined.

(** C2, as amended.  When the facade's frustum is live and its camera is a
    live camera, [SetCamera] by camera returns; the old frustum is
    destroyed; the new frustum is a new object that decorates [c]; the
    viewport is bound to it; [c] is the current camera; the previously
    active camera is still alive, and, unless it is [c] itself, none of the
    facade's viewing-volume pointers is the previously active camera. *)
Theorem SetCamera_Camera_replaces_frustum this c s v b n x :
  heap s !! frustum this = Some (Live (Frustum v b n)) →
  heap s !! camera this = Some (Live (Camera x)) →
  ∃ this' s',
    SetCamera_Camera this c s = Some (this', s')
    ∧ heap s' !! frustum this = Some Dead
    ∧ length (heap s) ≤ frustum this'
    ∧ heap s' !! frustum this'
      = Some (Live (Frustum c false (length (heap s))))
    ∧ viewingVolume s' = Some (frustum this')
    ∧ GetCamera this' = c
    ∧ heap s' !! camera this = Some (Live (Camera x))
    ∧ (c ≠ camera this → camera this ∉ viewing_refs this' s').
Proof.
  intros Hf Hc. eexists _, _. split; [by eapply SetCamera_Camera_eq|].
  pose proof (lookup_lt_Some _ _ _ Hf) as Hlf.
  pose proof (lookup_lt_Some _ _ _ Hc) as Hlc.
  assert (frustum this ≠ camera this) as Hne by congruence.
  assert (∀ o, (<[frustum this:=Dead]> (heap s)
                ++ [Live (Node FrustumNode [] []); o])
               !! (length (heap s) + 1) = Some o) as Hnew.
  { intros o. rewrite <- (length_insert (heap s) (frustum this) Dead).
    by rewrite lookup_app_plus. }
  cbn. repeat split.
  - rewrite lookup_app_l by by rewrite length_insert.
    by apply list_lookup_insert_eq.
  - lia.
  - apply Hnew.
  - rewrite lookup_app_l by by rewrite length_insert.
    by rewrite list_lookup_insert_ne.
  - intros Hcc. unfold viewing_refs, frustum_volume. cbn.
    rewrite Hnew. cbn. rewrite !elem_of_cons, elem_of_nil. lia.
Qed.

(** The application's camera of [demo], set on a facade built there. *)
Lemma SetCamera_Camera_replaces_frustum_witness :
  heap (wired demo) !! 15 = Some (Live (Frustum 13 false 14))
  ∧ heap (wired demo) !! 13 = Some (Live (Camera 12))
  ∧ ∃ this' s',
      SetCamera_Camera (members "demo" 5) 4 (wired demo) = Some (this', s')
      ∧ heap s' !! 15 = Some Dead
      ∧ viewingVolume s' = Some (frustum this')
      ∧ 13 ∉ viewing_refs this' s'.
Proof.
  split; [reflexivity|]. split; [reflexivity|].
  destruct (SetCamera_Camera_replaces_frustum (members "demo" 5) 4
              (wired demo) 13 false 14 12 eq_refl eq_refl)
    as (this' & s' & Hrun & Hdead & _ & _ & Hvp & _ & _ & Hrefs).
  exists this', s'. split_and!; [exact Hrun|exact Hdead|exact Hvp|].
  apply Hrefs. discriminate.
Defined.

(** C2, as stated, fails when the camera passed in is the current one.
    On a facade built in [demo] the current camera is object 13; the call
    with it goes through, and afterwards object 13 is the facade's
    [camera] member again and the volume that its new frustum decorates. *)
Lemma SetCamera_Camera_keeps_same_camera :
  SimpleSetup_new "demo" demo = Some (members "demo" 5, wired demo)
  ∧ GetCamera (members "demo" 5) = 13
  ∧ ∃ this' s',
      SetCamera_Camera (members "demo" 5) 13 (wired demo) = Some (this', s')
      ∧ GetCamera this' = 13
      ∧ heap s' !! frustum this' = Some (Live (Frustum 13 false 26))
      ∧ 13 ∈ viewing_refs this' s'.
Proof.
  split; [reflexivity|]. split; [reflexivity|].
  eexists _, _. split; [vm_compute; reflexivity|].
  split; [reflexivity|]. split; [reflexivity|].
  apply list_elem_of_here.
Qed.

(** C3.  [SetCamera] by viewing volume always returns.  The heap grows by
    exactly one object, a camera that wraps [v]; it is the current camera
    and the viewport's provider.  The [frustum] member is unchanged, no
    slot of the old heap changes (so no frustum is destroyed), and the one
    new object is a camera (so no frustum is created). *)
Theorem SetCamera_IViewingVolume_binds_camera this v s :
  ∃ this' s',
    SetCamera_IViewingVolume this v s = Some (this', s')
    ∧ heap s' = heap s ++ [Live (Camera v)]
    ∧ GetCamera this' = length (heap s)
    ∧ heap s' !! GetCamera this' = Some (Live (Camera v))
    ∧ viewingVolume s' = Some (GetCamera this')
    ∧ frustum this' = frustum this
    ∧ (∀ p, p < length (heap s) → heap s' !! p = heap s !! p)
    ∧ (∀ p vol b n,
         heap s' !! p = Some (Live (Frustum vol b n)) ↔
         heap s !! p = Some (Live (Frustum vol b n)))
    ∧ (∀ p, heap s' !! p = Some Dead ↔ heap s !! p = Some Dead).
Proof.
  eexists _, _. split; [apply SetCamera_IViewingVolume_eq|].
  assert (∀ p o, o ≠ Live (Camera v) →
            (heap s ++ [Live (Camera v)]) !! p = Some o ↔
            heap s !! p = Some o) as Hsame.
  { intros p o Ho. rewrite lookup_app_Some. split; [|by left].
    intros [?|[_ Hp]]; [done|].
    apply list_lookup_singleton_Some in Hp as [_ Hp]. congruence. }
  cbn. repeat split.
  - by apply list_lookup_middle.
  - intros p Hp. by apply lookup_app_l.
  - by apply Hsame.
  - by apply Hsame.
  - by apply Hsame.
  - by apply Hsame.
Qed.

(** C4.  A facade is constructed in any process and then receives any
    finite sequence of camera replacements.  The whole run returns.  The
    viewport's provider is then: with no replacement, the frustum the
    constructor made, which decorates the constructor's camera; after a
    last replacement by camera [c], the facade's frustum, the object
    allocated last, a frustum that decorates [c]; after a last replacement
    by viewing volume [v], the facade's camera, the object allocated last,
    a camera that wraps [v]. *)
Theorem viewport_follows_last_replacement t w cs :
  ∃ this0 s0 this s,
    SimpleSetup_new t w = Some (this0, s0)
    ∧ camera_calls this0 cs s0 = Some (this, s)
    ∧ match last cs with
      | None =>
          viewingVolume s = Some (frustum this0)
          ∧ ∃ n, heap s !! frustum this0
                 = Some (Live (Frustum (GetCamera this0) false n))
      | Some (ByCamera c) =>
          viewingVolume s = Some (frustum this)
          ∧ frustum this = length (heap s) - 1
          ∧ heap s !! frustum this
            = Some (Live (Frustum c false (length (heap s) - 2)))
          ∧ GetCamera this = c
      | Some (ByViewingVolume v) =>
          viewingVolume s = Some (GetCamera this)
          ∧ GetCamera this = length (heap s) - 1
          ∧ heap s !! GetCamera this = Some (Live (Camera v))
      end.
Proof.
  destruct (camera_calls_last cs (members t (length (heap w))) (wired w))
    as (this & s & Hrun & _ & Hlast).
  { eexists _, _, _. cbn. by rewrite lookup_app_plus. }
  eexists _, _, this, s. split; [apply SimpleSetup_new_eq|].
  split; [done|].
  destruct (last cs) as [[c|v]|]; [done..|].
  destruct Hlast as [-> ->]. split; [done|].
  eexists. cbn. by rewrite lookup_app_plus.
Qed.

(** C5.  A facade is constructed and then receives [SetScene] for each
    of the scene roots [roots], all of them live scene nodes.  The run
    returns.  The engine's initialize event then holds the three modules
    followed by one listener per call, in call order; these listeners are
    distinct, the i-th is a shader loader bound to the texture loader and
    to the i-th root, and the shader loaders on the event are exactly as
    many as the calls. *)
Theorem SetScene_accumulates_loaders t w this0 s0 roots :
  SimpleSetup_new t w = Some (this0, s0) →
  Forall (λ p, is_node (heap s0) p = true) roots →
  ∃ this s loaders,
    scene_calls this0 roots s0 = Some (this, s)
    ∧ InitializeEvent (engineS s)
      = [frame this; renderer this; input this] ++ loaders
    ∧ length loaders = length roots
    ∧ NoDup loaders
    ∧ Forall2
        (λ l p,
           heap s !! l = Some (Live (ShaderLoader (textureloader this0) p)))
        loaders roots
    ∧ length (List.filter (is_shader_loader (heap s))
                (InitializeEvent (engineS s)))
      = length roots.
Proof.
  rewrite SimpleSetup_new_eq. intros [= <- <-] Hall.
  destruct (scene_calls_eq roots (members t (length (heap w))) _ Hall)
    as (this & s & Hrun & Hfr & Hre & Hin & Hh & He).
  pose (n := length (heap w)).
  assert (length (heap (wired w)) = n + 21) as Hlen
    by (cbn; rewrite length_app; cbn; lia).
  assert (∀ i p, roots !! i = Some p →
            heap s !! (n + 21 + i)
            = Some (Live (ShaderLoader (n + 12) p))) as Hloader.
  { intros i p Hi. rewrite Hh, <- Hlen, lookup_app_plus, list_lookup_fmap.
    by rewrite Hi. }
  assert (∀ k o, heap (wired w) !! (n + k) = Some o →
            is_shader_loader (heap s) (n + k)
            = match o with Live (ShaderLoader _ _) => true | _ => false end)
    as Hold.
  { intros k o Hk. unfold is_shader_loader.
    by rewrite Hh, (lookup_app_l_Some _ _ _ _ Hk). }
  assert (∀ k o, (heap w ++ o) !! (n + k) = o !! k) as Hnew
    by (intros; apply lookup_app_plus).
  exists this, s, (seq (n + 21) (length roots)).
  split; [exact Hrun|]. rewrite He, Hfr, Hre, Hin, Hlen.
  change (InitializeEvent (engineS (wired w))) with [n + 1; n + 3; n + 4].
  split_and!; [done|apply length_seq|apply NoDup_seq| |].
  - apply Forall2_same_length_lookup_2; [apply length_seq|].
    intros i l p Hl Hp. apply lookup_seq in Hl as [-> _]. by apply Hloader.
  - rewrite List.filter_app. cbn [List.filter].
    rewrite (Hold 1 (Live (SDLFrame 800 600 32))) by apply Hnew.
    rewrite (Hold 3 (Live (Renderer (n + 2)))) by apply Hnew.
    rewrite (Hold 4 (Live SDLInput)) by apply Hnew.
    cbn [app].
    transitivity (length (seq (n + 21) (length roots)));
      [|apply length_seq].
    f_equal. apply forallb_filter_id, forallb_forall.
    intros l Hl%in_seq. unfold is_shader_loader.
    destruct (lookup_lt_is_Some_2 roots (l - (n + 21))) as [p Hp];
      [lia|].
    apply Hloader in Hp.
    replace (n + 21 + (l - (n + 21))) with l in Hp by lia.
    by rewrite Hp.
Qed.

(** Three replacements: the application's scene, the default scene, and
    the application's scene again. *)
Lemma SetScene_accumulates_loaders_witness :
  SimpleSetup_new "demo" demo = Some (members "demo" 5, wired demo)
  ∧ Forall (λ p, is_node (heap (wired demo)) p = true) [0; 10; 0]
  ∧ ∃ this s,
      scene_calls (members "demo" 5) [0; 10; 0] (wired demo) = Some (this, s)
      ∧ length (List.filter (is_shader_loader (heap s))
                  (InitializeEvent (engineS s))) = 3.
Proof.
  split; [reflexivity|].
  assert (Forall (λ p, is_node (heap (wired demo)) p = true) [0; 10; 0])
    as Hnodes by (repeat constructor).
  split; [exact Hnodes|].
  destruct (SetScene_accumulates_loaders "demo" demo (members "demo" 5)
              (wired demo) [0; 10; 0] eq_refl Hnodes)
    as (this & s & loaders & Hrun & _ & _ & _ & _ & Hcount).
  exists this, s. split; [exact Hrun|exact Hcount].
Defined.

(** C6.  The constructor always returns, and the engine's initialize,
    process and deinitialize events each hold exactly the frame, the
    renderer and the input device, in this order; the three are distinct
    objects, so that no list has a duplicate. *)
Theorem SimpleSetup_new_registers_modules t w :
  ∃ this s,
    SimpleSetup_new t w = Some (this, s)
    ∧ InitializeEvent (engineS s) = [frame this; renderer this; input this]
    ∧ ProcessEvent (engineS s) = [frame this; renderer this; input this]
    ∧ DeinitializeEvent (engineS s) = [frame this; renderer this; input this]
    ∧ NoDup [frame this; renderer this; input this]
    ∧ heap s !! frame this = Some (Live (SDLFrame 800 600 32))
    ∧ heap s !! renderer this = Some (Live (Renderer (viewport this)))
    ∧ heap s !! input this = Some (Live SDLInput).
Proof.
  eexists _, _. split; [apply SimpleSetup_new_eq|].
  cbn. repeat split; try by rewrite lookup_app_plus.
  repeat (apply NoDup_cons; split;
          [rewrite ?elem_of_cons, elem_of_nil; lia|]).
  apply NoDup_nil_2.
Qed.

(** C7.  Let the facade's frustum and scene be live, as they are after
    any session ([session_intact]).  If ["scene.dot"]
    cannot be opened, [EnableDebugging] still returns, one error entry is
    logged, nothing is written, clip-plane visualisation is on and the
    frustum's node is the last child of the scene.  If the file can be
    opened, the same two effects take place, the scene is written to
    ["scene.dot"], and two informational entries are logged, the second of
    which carries the conversion command. *)
Theorem EnableDebugging_reports_and_continues this s v b n c ts subs :
  heap s !! frustum this = Some (Live (Frustum v b n)) →
  heap s !! scene this = Some (Live (Node c ts subs)) →
  (∃ s',
     EnableDebugging this false s = Some (tt, s')
     ∧ log (statics s')
       = log (statics s) ++ [(Error, "Can not open 'scene.dot' for output")]
     ∧ dotFiles (statics s') = dotFiles (statics s)
     ∧ heap s' !! frustum this = Some (Live (Frustum v true n))
     ∧ heap s' !! scene this = Some (Live (Node c ts (subs ++ [n]))))
  ∧ (∃ s',
       EnableDebugging this true s = Some (tt, s')
       ∧ log (statics s')
         = log (statics s)
           ++ [(Info, "Saved physics graph to 'scene.dot'");
               (Info, "To create a SVG image run: dot -Tsvg scene.dot > scene.svg")]
       ∧ dotFiles (statics s')
         = dotFiles (statics s) ++ [("scene.dot", scene this)]
       ∧ heap s' !! frustum this = Some (Live (Frustum v true n))
       ∧ heap s' !! scene this = Some (Live (Node c ts (subs ++ [n])))).
Proof.
  intros Hf Hs.
  assert (frustum this ≠ scene this) as Hne by congruence.
  pose proof (lookup_lt_Some _ _ _ Hf) as Hlf.
  pose proof (lookup_lt_Some _ _ _ Hs) as Hls.
  split; (eexists; split; [by eapply EnableDebugging_eq|]); cbn;
    rewrite ?app_nil_r; repeat split.
  all: try (rewrite list_lookup_insert_ne by done;
            by apply list_lookup_insert_eq).
  all: apply list_lookup_insert_eq; by rewrite length_insert.
Qed.

(** Debugging enabled on a facade built in [demo]. *)
Lemma EnableDebugging_reports_and_continues_witness :
  heap (wired demo) !! 15 = Some (Live (Frustum 13 false 14))
  ∧ heap (wired demo) !! 10 = Some (Live (Node SceneNode [] [23]))
  ∧ (∃ s',
       EnableDebugging (members "demo" 5) false (wired demo) = Some (tt, s')
       ∧ log (statics s') = [(Error, "Can not open 'scene.dot' for output")]
       ∧ heap s' !! 15 = Some (Live (Frustum 13 true 14))
       ∧ heap s' !! 10 = Some (Live (Node SceneNode [] [23; 14]))).
Proof.
  split; [reflexivity|]. split; [reflexivity|].
  destruct (EnableDebugging_reports_and_continues (members "demo" 5)
              (wired demo) 13 false 14 SceneNode [] [23] eq_refl eq_refl)
    as [(s' & Hrun & Hlog & _ & Hfrustum & Hscene) _].
  exists s'. split_and!; [exact Hrun|exact Hlog|exact Hfrustum|exact Hscene].
Defined.

(** C8.  After any session the renderer's initialize event holds one
    listener, a [TextureLoadOnInit] bound to the facade's texture loader,
    and the renderer's scene root is the facade's scene.  In any state in which this listener is the one attached, firing the
    event does the following.  With a null scene root it returns and
    leaves the state as it is: nothing is loaded, nothing fails.  With a
    root that is a live scene node it returns, appends the textures of
    the walk from the root to the loaded ones, which then include every
    texture reachable from the root, and changes nothing else. *)
Theorem TextureLoadOnInit_loads_iff_root t cs w this s :
  session t cs w = Some (this, s) →
  ∃ l,
    RenderInitializeEvent (rendererS s) = [l]
    ∧ heap s !! l = Some (Live (TextureLoadOnInit (textureloader this)))
    ∧ sceneRoot (rendererS s) = Some (GetScene this)
    ∧ ∀ s1 tl,
        RenderInitializeEvent (rendererS s1) = [l] →
        heap s1 !! l = Some (Live (TextureLoadOnInit tl)) →
        match sceneRoot (rendererS s1) with
        | None => Renderer_InitializeEvent_Notify s1 = Some (tt, s1)
        | Some root =>
            ∀ c ts subs,
              heap s1 !! root = Some (Live (Node c ts subs)) →
              ∃ s2,
                Renderer_InitializeEvent_Notify s1 = Some (tt, s2)
                ∧ s2 = with_loaded
                         (λ l, l ++ visit (length (heap s1)) (heap s1) root)
                         s1
                ∧ ∀ x, reachable_texture (heap s1) root x → x ∈ loaded s2
        end.
Proof.
  intros (_ & (l & Hev & Hl) & _ & _ & Hroot0)%session_intact.
  exists l. split; [done|]. split; [done|]. split; [done|].
  intros s1 tl Hev1 Hl1.
  destruct (sceneRoot (rendererS s1)) as [root|] eqn:Hroot.
  - intros c ts subs Hn. eexists. split; [|split; [reflexivity|]].
    + eapply Renderer_InitializeEvent_Notify_eq; [done..|].
      by eapply TextureLoadOnInit_Handle_root.
    + intros x Hx. cbn. apply elem_of_app. right. by apply visit_complete.
  - eapply Renderer_InitializeEvent_Notify_eq; [done..|].
    by apply TextureLoadOnInit_Handle_null.
Qed.

(** The renderer fires its initialize event after a session in [demo]
    that set the application's scene. *)
Lemma TextureLoadOnInit_loads_iff_root_witness :
  ∃ this s,
    session "demo" [CallSetScene 0; CallEnableDebugging true] demo
    = Some (this, s)
    ∧ ∃ s2,
        Renderer_InitializeEvent_Notify s = Some (tt, s2)
        ∧ ∀ x, reachable_texture (heap s) 0 x → x ∈ loaded s2.
Proof.
  eexists _, _. split; [vm_compute; reflexivity|].
  edestruct (TextureLoadOnInit_loads_iff_root "demo"
               [CallSetScene 0; CallEnableDebugging true] demo)
    as (l & Hev & Hl & _ & Hfire); [vm_compute; reflexivity|].
  edestruct (Hfire _ _ Hev Hl SceneNode [] [1; 2; 14] eq_refl)
    as (s2 & Hrun & _ & Hloaded).
  exists s2. split; [exact Hrun|exact Hloaded].
Defined.

Section KeyboardProperties.

Variable KEY_ESCAPE : nat.


End KeyboardProperties.


(** C10.  Let the facade's frustum be live and decorate an object [vol]
    of the heap.  [SetCamera] by viewing volume returns and leaves the
    [frustum] member and the frustum object as they were: the frustum
    still decorates [vol], and [vol] is not the new current camera.  In
    particular, when the frustum decorated the current camera before the
    call, it still decorates that camera, which is no longer the current
    one.  Any [SetCamera] by camera that follows returns and destroys
    that frustum. *)
Theorem SetCamera_IViewingVolume_leaves_frustum_stale this v s vol b n o :
  heap s !! frustum this = Some (Live (Frustum vol b n)) →
  heap s !! vol = Some o →
  ∃ this' s',
    SetCamera_IViewingVolume this v s = Some (this', s')
    ∧ frustum this' = frustum this
    ∧ heap s' !! frustum this' = Some (Live (Frustum vol b n))
    ∧ GetCamera this' ≠ vol
    ∧ (vol = GetCamera this →
         heap s' !! frustum this'
         = Some (Live (Frustum (GetCamera this) b n))
         ∧ GetCamera this' ≠ GetCamera this)
    ∧ ∀ c, ∃ this'' s'',
        SetCamera_Camera this' c s' = Some (this'', s'')
        ∧ heap s'' !! frustum this = Some Dead.
Proof.
  intros Hf Hv. eexists _, _. split; [apply SetCamera_IViewingVolume_eq|].
  pose proof (lookup_lt_Some _ _ _ Hf) as Hlf.
  pose proof (lookup_lt_Some _ _ _ Hv) as Hlv.
  assert ((heap s ++ [Live (Camera v)]) !! frustum this
          = Some (Live (Frustum vol b n))) as Hf'
    by by apply lookup_app_l_Some.
  unfold GetCamera in *. cbn. split_and!; [done|done|lia| |].
  - intros ->. split; [done|lia].
  - intros c. eexists _, _. split.
    + eapply SetCamera_Camera_eq. cbn. exact Hf'.
    + cbn. rewrite lookup_app_l
        by (rewrite length_insert, length_app; cbn; lia).
      apply list_lookup_insert_eq. rewrite length_app. lia.
Qed.

(** The application's viewing volume of [demo], set on a facade built
    there, whose frustum decorates its current camera, object 13. *)
Lemma SetCamera_IViewingVolume_leaves_frustum_stale_witness :
  heap (wired demo) !! 15 = Some (Live (Frustum 13 false 14))
  ∧ heap (wired demo) !! 13 = Some (Live (Camera 12))
  ∧ GetCamera (members "demo" 5) = 13
  ∧ ∃ this' s',
      SetCamera_IViewingVolume (members "demo" 5) 3 (wired demo)
      = Some (this', s')
      ∧ heap s' !! frustum this' = Some (Live (Frustum 13 false 14))
      ∧ GetCamera this' ≠ 13.
Proof.
  split; [reflexivity|]. split; [reflexivity|]. split; [reflexivity|].
  destruct (SetCamera_IViewingVolume_leaves_frustum_stale
              (members "demo" 5) 3 (wired demo) 13 false 14
              (Live (Camera 12)) eq_refl eq_refl)
    as (this' & s' & Hrun & _ & Hsame & Hne & _).
  exists this', s'. split_and!; [exact Hrun|exact Hsame|exact Hne].
Defined.

(** C10, as stated, fails when the frustum is already stale.  On a facade
    built in [demo], one [SetCamera] by viewing volume makes object 26
    the current camera and leaves the frustum on the default camera,
    object 13.  After a second [SetCamera] by viewing volume the frustum
    still decorates object 13, not object 26, the camera that was active
    before that call. *)
Lemma SetCamera_IViewingVolume_twice_keeps_older_camera :
  ∃ this s,
    session "demo" [CallSetCamera (ByViewingVolume 3)] demo = Some (this, s)
    ∧ GetCamera this = 26
    ∧ ∃ this' s',
        SetCamera_IViewingVolume this 3 s = Some (this', s')
        ∧ frustum this' = frustum this
        ∧ heap s' !! frustum this' = Some (Live (Frustum 13 false 14))
        ∧ GetCamera this' = 27
        ∧ ¬ ∃ b n, heap s' !! frustum this'
                   = Some (Live (Frustum (GetCamera this) b n)).
Proof.
  eexists _, _. split; [vm_compute; reflexivity|].
  split; [reflexivity|].
  eexists _, _. split; [vm_compute; reflexivity|].
  split; [reflexivity|]. split; [reflexivity|]. split; [reflexivity|].
  intros (b & n & H). vm_compute in H. discriminate H.
Qed.

(** * Further properties *)

(** ** The effect of one call *)

(** The five cases of a call that returns, each with its state in closed
    form. *)
Ltac call_inv Hi H :=
  destruct Hi as ((qh & Hk & Hq) & (tl & Hr & Hl) & (fv & fb & fn & Hf)
                  & (c0 & ts0 & subs0 & Hs) & Hroot);
  pose proof (lookup_lt_Some _ _ _ Hf) as Hlf;
  pose proof (lookup_lt_Some _ _ _ Hs) as Hls;
  match type of H with
  | facade_call _ ?c _ = _ => destruct c as [root|[cam|vol]|dir|good]
  end; cbn in H;
  [ destruct (SetScene_inv _ _ _ _ _ H) as (c1 & ts1 & subs1 & Hn);
    rewrite (SetScene_eq _ _ _ _ _ _ Hn) in H; injection H as <- <-
  | rewrite (SetCamera_Camera_eq _ _ _ _ _ _ Hf) in H; injection H as <- <-
  | rewrite SetCamera_IViewingVolume_eq in H; injection H as <- <-
  | injection H as <- <-
  | apply bind_inv in H as ([] & s1 & H & [= <- <-]);
    rewrite (EnableDebugging_eq _ _ _ _ _ _ _ _ _ Hf Hs) in H;
    injection H as <- ].

Lemma facade_call_members this c s this' s' :
  intact this s → facade_call this c s = Some (this', s') →
  title this' = title this ∧ engine this' = engine this
  ∧ frame this' = frame this ∧ viewport this' = viewport this
  ∧ renderer this' = renderer this ∧ input this' = input this
  ∧ renderingview this' = renderingview this
  ∧ textureloader this' = textureloader this ∧ hud this' = hud this.
Proof. intros Hi H. call_inv Hi H; by cbn. Qed.

Lemma facade_call_events this c s this' s' :
  intact this s → facade_call this c s = Some (this', s') →
  InitializeEvent (engineS s')
  = InitializeEvent (engineS s)
    ++ match c with CallSetScene _ => [length (heap s)] | _ => [] end
  ∧ ProcessEvent (engineS s') = ProcessEvent (engineS s)
  ∧ DeinitializeEvent (engineS s') = DeinitializeEvent (engineS s)
  ∧ stopRequests (engineS s') = stopRequests (engineS s)
  ∧ RenderProcessEvent (rendererS s') = RenderProcessEvent (rendererS s)
  ∧ RenderPostProcessEvent (rendererS s')
    = RenderPostProcessEvent (rendererS s).
Proof. intros Hi H. call_inv Hi H; cbn; by rewrite ?app_nil_r. Qed.

Lemma facade_call_statics this c s this' s' :
  intact this s → facade_call this c s = Some (this', s') →
  searchPath (statics s') = searchPath (statics s) ++ call_dirs [c]
  ∧ log (statics s') = log (statics s) ++ call_log [c]
  ∧ loggers (statics s') = loggers (statics s)
  ∧ modelPlugins (statics s') = modelPlugins (statics s)
  ∧ texturePlugins (statics s') = texturePlugins (statics s)
  ∧ shaderPlugins (statics s') = shaderPlugins (statics s).
Proof.
  intros Hi H. call_inv Hi H; cbn; by rewrite ?app_nil_r.
Qed.

(** ** What becomes of the objects of the heap *)

Lemma kept_refl n h : kept n h h.
Proof.
  intros p o Hp. destruct o as [[]|]; try done.
  exists []. by rewrite app_nil_r.
Qed.

Lemma kept_trans n h1 h2 h3 : kept n h1 h2 → kept n h2 h3 → kept n h1 h3.
Proof.
  intros H12 H23 p o Hp. specialize (H12 p o Hp).
  destruct o as [[]|]; try (by apply (H23 p _ H12)).
  - intros Hlt. by apply (H23 p _ (H12 Hlt)).
  - destruct H12 as (more & H12). destruct (H23 p _ H12) as (more' & H3).
    exists (more ++ more'). by rewrite app_assoc.
Qed.

Lemma kept_app n h l : kept n h (h ++ l).
Proof.
  intros p o Hp. apply (lookup_app_l_Some _ l) in Hp.
  destruct o as [[]|]; try done. exists []. by rewrite app_nil_r.
Qed.

(** Writing to the slot of a frustum at or above [n]. *)
Lemma kept_insert_frustum n h f v b nd x :
  h !! f = Some (Live (Frustum v b nd)) → n ≤ f → kept n h (<[f:=x]> h).
Proof.
  intros Hf Hn p o Hp. destruct (decide (p = f)) as [->|Hne].
  - rewrite Hf in Hp. injection Hp as <-. lia.
  - rewrite list_lookup_insert_ne by done.
    destruct o as [[]|]; try done. exists []. by rewrite app_nil_r.
Qed.

(** Giving a scene node one more child. *)
Lemma kept_insert_child n h p c ts subs sub :
  h !! p = Some (Live (Node c ts subs)) →
  kept n h (<[p:=Live (Node c ts (subs ++ [sub]))]> h).
Proof.
  intros Hn q o Hq. destruct (decide (q = p)) as [->|Hne].
  - rewrite Hn in Hq. injection Hq as <-. exists [sub].
    apply list_lookup_insert_eq. by eapply lookup_lt_Some.
  - rewrite list_lookup_insert_ne by done.
    destruct o as [[]|]; try done. exists []. by rewrite app_nil_r.
Qed.

Lemma facade_call_kept n this c s this' s' :
  intact this s → n ≤ frustum this →
  facade_call this c s = Some (this', s') →
  kept n (heap s) (heap s') ∧ n ≤ frustum this'
  ∧ length (heap s) ≤ length (heap s').
Proof.
  intros Hi Hle H. call_inv Hi H; cbn;
    rewrite ?length_app, ?length_insert; (split; [|split; [lia|lia]]).
  - apply kept_app.
  - eapply kept_trans; [by eapply kept_insert_frustum|apply kept_app].
  - apply kept_app.
  - apply kept_refl.
  - eapply kept_trans; [by eapply kept_insert_frustum|].
    apply kept_insert_child. rewrite list_lookup_insert_ne; [done|].
    congruence.
Qed.

(** ** The effect of a list of calls *)

Lemma facade_calls_account cs : ∀ this s this' s',
  intact this s → facade_calls this cs s = Some (this', s') →
  (title this' = title this ∧ engine this' = engine this
   ∧ frame this' = frame this ∧ viewport this' = viewport this
   ∧ renderer this' = renderer this ∧ input this' = input this
   ∧ renderingview this' = renderingview this
   ∧ textureloader this' = textureloader this ∧ hud this' = hud this)
  ∧ (ProcessEvent (engineS s') = ProcessEvent (engineS s)
     ∧ DeinitializeEvent (engineS s') = DeinitializeEvent (engineS s)
     ∧ stopRequests (engineS s') = stopRequests (engineS s)
     ∧ RenderProcessEvent (rendererS s') = RenderProcessEvent (rendererS s)
     ∧ RenderPostProcessEvent (rendererS s')
       = RenderPostProcessEvent (rendererS s))
  ∧ (searchPath (statics s') = searchPath (statics s) ++ call_dirs cs
     ∧ log (statics s') = log (statics s) ++ call_log cs
     ∧ loggers (statics s') = loggers (statics s)
     ∧ modelPlugins (statics s') = modelPlugins (statics s)
     ∧ texturePlugins (statics s') = texturePlugins (statics s)
     ∧ shaderPlugins (statics s') = shaderPlugins (statics s)).
Proof.
  induction cs as [|c cs IH]; intros this s this' s' Hi H; cbn in H.
  { injection H as <- <-. cbn. by rewrite !app_nil_r. }
  apply bind_inv in H as (this1 & s1 & H1 & H).
  pose proof (facade_call_intact _ _ _ _ _ Hi H1) as Hi1.
  destruct (facade_call_members _ _ _ _ _ Hi H1)
    as (M1 & M2 & M3 & M4 & M5 & M6 & M7 & M8 & M9).
  destruct (facade_call_events _ _ _ _ _ Hi H1)
    as (_ & E1 & E2 & E3 & E4 & E5).
  destruct (facade_call_statics _ _ _ _ _ Hi H1)
    as (Hp & Hl & S1 & S2 & S3 & S4).
  destruct (IH _ _ _ _ Hi1 H)
    as ((M1' & M2' & M3' & M4' & M5' & M6' & M7' & M8' & M9')
        & (E1' & E2' & E3' & E4' & E5')
        & (Hp' & Hl' & S1' & S2' & S3' & S4')).
  split; [split_and!; congruence|]. split; [split_and!; congruence|].
  split_and!; try congruence.
  - rewrite Hp', Hp. cbn. by rewrite !app_nil_r, <- app_assoc.
  - rewrite Hl', Hl. cbn. by rewrite !app_nil_r, <- app_assoc.
Qed.

Lemma facade_calls_kept lim cs : ∀ this s this' s',
  intact this s → lim ≤ frustum this →
  facade_calls this cs s = Some (this', s') →
  kept lim (heap s) (heap s') ∧ lim ≤ frustum this'
  ∧ length (heap s) ≤ length (heap s').
Proof.
  induction cs as [|c cs IH]; intros this s this' s' Hi Hle H; cbn in H.
  { injection H as <- <-. split; [apply kept_refl|done]. }
  apply bind_inv in H as (this1 & s1 & H1 & H).
  pose proof (facade_call_intact _ _ _ _ _ Hi H1) as Hi1.
  destruct (facade_call_kept _ _ _ _ _ _ Hi Hle H1) as (Hk1 & Hle1 & Hlen1).
  destruct (IH _ _ _ _ Hi1 Hle1 H) as (Hk & Hle' & Hlen).
  split; [by eapply kept_trans|]. split; [done|lia].
Qed.

(** The listeners that the calls add to the engine's initialize event. *)
Lemma facade_calls_loaders cs : ∀ this s this' s',
  intact this s → facade_calls this cs s = Some (this', s') →
  ∃ loaders,
    InitializeEvent (engineS s') = InitializeEvent (engineS s) ++ loaders
    ∧ Forall2
        (λ l p,
           heap s' !! l = Some (Live (ShaderLoader (textureloader this) p)))
        loaders (call_roots cs)
    ∧ Forall (λ l, length (heap s) ≤ l) loaders
    ∧ NoDup loaders.
Proof.
  induction cs as [|c cs IH]; intros this s this' s' Hi H; cbn in H.
  { injection H as <- <-. exists []. rewrite app_nil_r.
    split_and!; [done|constructor|constructor|constructor]. }
  apply bind_inv in H as (this1 & s1 & H1 & H).
  pose proof (facade_call_intact _ _ _ _ _ Hi H1) as Hi1.
  destruct (facade_call_members _ _ _ _ _ Hi H1)
    as (_ & _ & _ & _ & _ & _ & _ & Htl & _).
  destruct (facade_call_events _ _ _ _ _ Hi H1) as (Hinit & _).
  destruct (facade_call_kept 0 _ _ _ _ _ Hi (Nat.le_0_l _) H1)
    as (_ & _ & Hlen1).
  destruct (facade_calls_kept 0 _ _ _ _ _ Hi1 (Nat.le_0_l _) H)
    as (Hkept & _ & _).
  destruct (IH _ _ _ _ Hi1 H) as (loaders & He & Hall & Hfresh & Hnd).
  rewrite Htl in Hall.
  assert (Forall (λ l, length (heap s) ≤ l) loaders) as Hfresh'
    by (eapply Forall_impl; [exact Hfresh|]; cbn; intros; lia).
  destruct c as [root| | |];
    try (exists loaders; rewrite He, Hinit, app_nil_r; by split_and!).
  exists (length (heap s) :: loaders).
  rewrite He, Hinit, <- app_assoc. split; [done|].
  assert (length (heap s) < length (heap s1)) as Hgrow.
  { destruct (SetScene_inv _ _ _ _ _ H1) as (c1 & ts1 & subs1 & Hn).
    cbn in H1. rewrite (SetScene_eq _ _ _ _ _ _ Hn) in H1.
    injection H1 as <- <-. cbn. rewrite length_app. cbn. lia. }
  split_and!.
  - cbn. constructor; [|exact Hall].
    assert (heap s1 !! length (heap s)
            = Some (Live (ShaderLoader (textureloader this) root))) as Hnew.
    { destruct (SetScene_inv _ _ _ _ _ H1) as (c1 & ts1 & subs1 & Hn).
      cbn in H1. rewrite (SetScene_eq _ _ _ _ _ _ Hn) in H1.
      injection H1 as <- <-. cbn. by apply list_lookup_middle. }
    exact (Hkept _ _ Hnew).
  - constructor; [done|exact Hfresh'].
  - constructor; [|exact Hnd].
    intros Hin. rewrite Forall_forall in Hfresh.
    specialize (Hfresh _ Hin). lia.
Qed.

(** How the viewport is bound follows the camera replacements. *)
Lemma facade_call_bound cam0 acc this c s this' s' :
  intact this s → bound_as cam0 acc this s →
  facade_call this c s = Some (this', s') →
  bound_as cam0 (last_camera acc [c]) this' s'.
Proof.
  intros Hi Hb H. call_inv Hi H; cbn [last_camera].
  - destruct acc as [[cam|vol]|]; cbn in *;
      [destruct Hb as (? & ? & bb & nn & Hb)|destruct Hb as (? & Hb)
      |destruct Hb as (? & ? & bb & nn & Hb)];
      split_and!; eauto using lookup_app_l_Some.
  - cbn. split_and!; [done..|]. eexists _, _.
    rewrite <- (length_insert (heap s) (frustum this) Dead) at 1.
    by rewrite lookup_app_plus.
  - cbn. split; [done|]. by apply list_lookup_middle.
  - done.
  - destruct acc as [[cam|vol]|]; cbn in *.
    + destruct Hb as (? & ? & bb & nn & Hb). split_and!; [done..|].
      rewrite Hf in Hb. injection Hb as -> -> ->. eexists _, _.
      rewrite list_lookup_insert_ne by congruence.
      by apply list_lookup_insert_eq.
    + destruct Hb as (? & Hb). split; [done|].
      rewrite !list_lookup_insert_ne by congruence. done.
    + destruct Hb as (? & ? & bb & nn & Hb). split_and!; [done..|].
      rewrite Hf in Hb. injection Hb as -> -> ->. eexists _, _.
      rewrite list_lookup_insert_ne by congruence.
      by apply list_lookup_insert_eq.
Qed.

Lemma last_camera_cons acc c cs :
  last_camera acc (c :: cs) = last_camera (last_camera acc [c]) cs.
Proof. by destruct c. Qed.

Lemma facade_calls_bound cam0 cs : ∀ acc this s this' s',
  intact this s → bound_as cam0 acc this s →
  facade_calls this cs s = Some (this', s') →
  bound_as cam0 (last_camera acc cs) this' s'.
Proof.
  induction cs as [|c cs IH]; intros acc this s this' s' Hi Hb H.
  { cbn in H. by injection H as <- <-. }
  cbn [facade_calls] in H. apply bind_inv in H as (this1 & s1 & H1 & H).
  rewrite last_camera_cons.
  eapply IH; [by eapply facade_call_intact| |exact H].
  by eapply facade_call_bound.
Qed.

Lemma session_calls t cs w this s :
  session t cs w = Some (this, s) →
  facade_calls (members t (length (heap w))) cs (wired w) = Some (this, s).
Proof.
  unfold session. by rewrite (bind_Some _ _ _ _ _ (SimpleSetup_new_eq t w)).
Qed.

(** ** The walk loads nothing but reachable textures *)

Lemma visit_sound h fuel : ∀ p t,
  t ∈ visit fuel h p → reachable_texture h p t.
Proof.
  induction fuel as [|fuel IH]; intros p t Ht; cbn in Ht.
  { by apply elem_of_nil in Ht. }
  destruct (h !! p) as [[[]|]|] eqn:Hp; try by apply elem_of_nil in Ht.
  apply elem_of_app in Ht as [Ht|Ht].
  - exists p. eexists _, _, _. split; [by eapply reach_here|done].
  - apply list_elem_of_In, in_flat_map in Ht as (q & Hq & Ht).
    apply list_elem_of_In in Hq, Ht.
    destruct (IH _ _ Ht) as (r & c & ts & subs & Hr & Hn & Hin).
    exists r, c, ts, subs. split; [|done]. by eapply reach_sub.
Qed.

(** ** Construction *)

(** X1.  The constructor always returns.  The default scene is a scene
    node whose only child is a directional light without children; the
    renderer is bound to it; and these two are all the nodes that can be
    reached from it. *)
Theorem SimpleSetup_new_default_scene t w :
  ∃ this s light,
    SimpleSetup_new t w = Some (this, s)
    ∧ heap s !! GetScene this = Some (Live (Node SceneNode [] [light]))
    ∧ heap s !! light = Some (Live (Node DirectionalLightNode [] []))
    ∧ sceneRoot (rendererS s) = Some (GetScene this)
    ∧ ∀ q, reach (heap s) (GetScene this) q ↔ q = GetScene this ∨ q = light.
Proof.
  eexists _, _, _. split; [apply SimpleSetup_new_eq|].
  assert (heap (wired w) !! (length (heap w) + 5)
          = Some (Live (Node SceneNode [] [length (heap w) + 18]))) as Hs
    by (cbn; by rewrite lookup_app_plus).
  assert (heap (wired w) !! (length (heap w) + 18)
          = Some (Live (Node DirectionalLightNode [] []))) as Hl
    by (cbn; by rewrite lookup_app_plus).
  unfold GetScene. cbn [scene members].
  split; [exact Hs|]. split; [exact Hl|]. split; [done|].
  intros q. split.
  - intros Hr. inversion Hr as [? c ts subs Hp|? c ts subs q' ? Hp Hin Hr'];
      subst; [by left|].
    rewrite Hs in Hp. injection Hp as <- <- <-.
    apply list_elem_of_singleton in Hin as ->.
    inversion Hr' as [? c ts subs Hp|? c ts subs q' ? Hp Hin Hr''];
      subst; [by right|].
    rewrite Hl in Hp. injection Hp as <- <- <-. by apply elem_of_nil in Hin.
  - intros [->| ->]; [by eapply reach_here|].
    eapply reach_sub; [exact Hs|apply list_elem_of_here|by eapply reach_here].
Qed.

(** X2.  The default camera wraps an interpolated viewing volume, which
    wraps a plain viewing volume; the frustum is a live frustum that
    decorates this camera; the viewport is bound to the frustum. *)
Theorem SimpleSetup_new_default_camera t w :
  ∃ this s ivv vv b node,
    SimpleSetup_new t w = Some (this, s)
    ∧ heap s !! GetCamera this = Some (Live (Camera ivv))
    ∧ heap s !! ivv = Some (Live (InterpolatedViewingVolume vv))
    ∧ heap s !! vv = Some (Live ViewingVolume)
    ∧ heap s !! frustum this = Some (Live (Frustum (GetCamera this) b node))
    ∧ viewingVolume s = Some (frustum this).
Proof.
  eexists _, _, _, _, _, _. split; [apply SimpleSetup_new_eq|].
  unfold GetCamera. cbn. split_and!; [..|done]; by rewrite lookup_app_plus.
Qed.

(** X3.  The constructor deletes no object that was there before, and
    an earlier object of any class but the five module classes, so every
    scene node, viewing volume, camera and frustum that the application
    has built, is afterwards exactly as it was.  The eleven pointer
    members are distinct objects that the constructor has allocated
    itself.  It registers one more logger and one more plug-in of each
    kind, after those already registered, and leaves the search path, the
    log and the dot files as they were. *)
Theorem SimpleSetup_new_footprint t w :
  ∃ this s sl obj tga glsl,
    SimpleSetup_new t w = Some (this, s)
    ∧ (∀ p o, heap w !! p = Some (Live o) →
              ∃ o', heap s !! p = Some (Live o'))
    ∧ (∀ p o, heap w !! p = Some (Live o) → is_module o = false →
              heap s !! p = Some (Live o))
    ∧ NoDup [engine this; frame this; viewport this; renderer this;
             input this; scene this; camera this; frustum this;
             renderingview this; textureloader this; hud this]
    ∧ Forall (λ p, length (heap w) ≤ p < length (heap s))
        [engine this; frame this; viewport this; renderer this;
         input this; scene this; camera this; frustum this;
         renderingview this; textureloader this; hud this]
    ∧ loggers (statics s) = loggers (statics w) ++ [sl]
    ∧ heap s !! sl = Some (Live StreamLogger)
    ∧ modelPlugins (statics s) = modelPlugins (statics w) ++ [obj]
    ∧ heap s !! obj = Some (Live OBJPlugin)
    ∧ texturePlugins (statics s) = texturePlugins (statics w) ++ [tga]
    ∧ heap s !! tga = Some (Live TGAPlugin)
    ∧ shaderPlugins (statics s) = shaderPlugins (statics w) ++ [glsl]
    ∧ heap s !! glsl = Some (Live GLSLPlugin)
    ∧ searchPath (statics s) = searchPath (statics w)
    ∧ log (statics s) = log (statics w)
    ∧ dotFiles (statics s) = dotFiles (statics w).
Proof.
  eexists _, _, _, _, _, _. split; [apply SimpleSetup_new_eq|].
  cbn. split_and!; try done; try (by rewrite lookup_app_plus).
  - intros p o Hp. exists o. by apply lookup_app_l_Some.
  - intros p o Hp _. by apply lookup_app_l_Some.
  - repeat (apply NoDup_cons; split;
            [rewrite ?elem_of_cons, elem_of_nil; lia|]).
    apply NoDup_nil_2.
  - rewrite length_app. cbn. repeat (constructor; [lia|]). constructor.
Qed.

(** The application's camera and the root of its scene in [demo], after
    a facade has been built there. *)
Lemma SimpleSetup_new_footprint_witness :
  ∃ this s,
    SimpleSetup_new "demo" demo = Some (this, s)
    ∧ heap s !! 4 = Some (Live (Camera 3))
    ∧ heap s !! 0 = Some (Live (Node SceneNode [] [1; 2]))
    ∧ length (heap demo) ≤ GetCamera this.
Proof.
  destruct (SimpleSetup_new_footprint "demo" demo)
    as (this & s & _ & _ & _ & _ & Hrun & _ & Hkept & _ & Hfresh & _).
  exists this, s. split; [exact Hrun|].
  split; [exact (Hkept 4 (Camera 3) eq_refl eq_refl)|].
  split; [exact (Hkept 0 (Node SceneNode [] [1; 2]) eq_refl eq_refl)|].
  apply Forall_cons_1 in Hfresh as [_ Hfresh].
  apply Forall_cons_1 in Hfresh as [_ Hfresh].
  apply Forall_cons_1 in Hfresh as [_ Hfresh].
  apply Forall_cons_1 in Hfresh as [_ Hfresh].
  apply Forall_cons_1 in Hfresh as [_ Hfresh].
  apply Forall_cons_1 in Hfresh as [_ Hfresh].
  apply Forall_cons_1 in Hfresh as [[Hc _] _]. exact Hc.
Defined.

(** ** What holds after every session *)

(** X4.  No call replaces a module.  After any session the engine, the
    frame, the viewport, the renderer, the input device, the rendering
    view, the texture loader and the overlay are the objects that the
    constructor made, each still alive and of its class; the mouse, the
    keyboard and the joystick are the one input device. *)
Theorem session_modules_fixed t cs w this s :
  session t cs w = Some (this, s) →
  ∃ this0 s0,
    SimpleSetup_new t w = Some (this0, s0)
    ∧ title this = t
    ∧ GetEngine this = GetEngine this0 ∧ GetFrame this = GetFrame this0
    ∧ viewport this = viewport this0
    ∧ GetRenderer this = GetRenderer this0
    ∧ GetMouse this = input this0 ∧ GetKeyboard this = input this0
    ∧ GetJoystick this = input this0
    ∧ renderingview this = renderingview this0
    ∧ textureloader this = textureloader this0
    ∧ GetHUD this = GetHUD this0
    ∧ heap s !! GetEngine this = Some (Live Engine)
    ∧ heap s !! GetFrame this = Some (Live (SDLFrame 800 600 32))
    ∧ heap s !! viewport this = Some (Live (Viewport (GetFrame this)))
    ∧ heap s !! GetRenderer this = Some (Live (Renderer (viewport this)))
    ∧ heap s !! GetKeyboard this = Some (Live SDLInput)
    ∧ heap s !! renderingview this
      = Some (Live (ExtRenderingView (viewport this)))
    ∧ heap s !! textureloader this
      = Some (Live (TextureLoader (GetRenderer this)))
    ∧ heap s !! GetHUD this = Some (Live HUD).
Proof.
  intros H%session_calls.
  pose proof (SimpleSetup_new_intact t w) as Hi.
  destruct (facade_calls_account _ _ _ _ _ Hi H)
    as ((M1 & M2 & M3 & M4 & M5 & M6 & M7 & M8 & M9) & _).
  destruct (facade_calls_kept 0 _ _ _ _ _ Hi (Nat.le_0_l _) H)
    as (Hkept & _).
  eexists _, _. split; [apply SimpleSetup_new_eq|].
  unfold GetEngine, GetFrame, GetRenderer, GetMouse, GetKeyboard,
    GetJoystick, GetHUD.
  rewrite M1, M2, M3, M4, M5, M6, M7, M8, M9. cbn [members title engine
    frame viewport renderer input renderingview textureloader hud].
  split_and!; try done.
  all: match goal with
       | |- heap _ !! ?p = Some ?o =>
           apply (Hkept p o); cbn;
           first [by rewrite lookup_app_plus|by apply list_lookup_middle]
       end.
Qed.

Lemma session_modules_fixed_witness :
  ∃ this s,
    session "demo"
      [CallSetScene 0; CallEnableDebugging true;
       CallSetCamera (ByViewingVolume 3); CallSetCamera (ByCamera 4)] demo
    = Some (this, s)
    ∧ GetEngine this = 5 ∧ GetMouse this = 9
    ∧ heap s !! GetKeyboard this = Some (Live SDLInput).
Proof.
  eexists _, _. split; [vm_compute; reflexivity|].
  edestruct (session_modules_fixed "demo"
               [CallSetScene 0; CallEnableDebugging true;
                CallSetCamera (ByViewingVolume 3);
                CallSetCamera (ByCamera 4)] demo)
    as (this0 & s0 & Hnew & _ & He & _ & _ & _ & Hm & _ & _ & _ & _ & _
        & _ & _ & _ & _ & Hk & _); [vm_compute; reflexivity|].
  rewrite SimpleSetup_new_eq in Hnew. injection Hnew as <- <-.
  split; [exact He|]. split; [exact Hm|exact Hk].
Defined.

(** X5.  After any session the engine's process and deinitialize events
    hold the frame, the renderer and the input device and nothing else,
    the renderer's process event holds the rendering view only, its
    post-process event holds the overlay only, and the engine has not
    been asked to stop. *)
Theorem session_events_fixed t cs w this s :
  session t cs w = Some (this, s) →
  ProcessEvent (engineS s) = [GetFrame this; GetRenderer this; GetMouse this]
  ∧ DeinitializeEvent (engineS s)
    = [GetFrame this; GetRenderer this; GetMouse this]
  ∧ RenderProcessEvent (rendererS s) = [renderingview this]
  ∧ RenderPostProcessEvent (rendererS s) = [GetHUD this]
  ∧ stopRequests (engineS s) = 0.
Proof.
  intros H%session_calls.
  pose proof (SimpleSetup_new_intact t w) as Hi.
  destruct (facade_calls_account _ _ _ _ _ Hi H)
    as ((M1 & M2 & M3 & M4 & M5 & M6 & M7 & M8 & M9)
        & (E1 & E2 & E3 & E4 & E5) & _).
  unfold GetFrame, GetRenderer, GetMouse, GetHUD.
  rewrite E1, E2, E3, E4, E5, M3, M5, M6, M7, M9. by cbn.
Qed.

Lemma session_events_fixed_witness :
  ∃ this s,
    session "demo" [CallSetScene 0; CallEnableDebugging true] demo
    = Some (this, s)
    ∧ ProcessEvent (engineS s) = [6; 8; 9]
    ∧ RenderPostProcessEvent (rendererS s) = [18].
Proof.
  eexists _, _. split; [vm_compute; reflexivity|].
  edestruct (session_events_fixed "demo"
               [CallSetScene 0; CallEnableDebugging true] demo)
    as (Hp & _ & _ & Hh & _); [vm_compute; reflexivity|].
  split; [exact Hp|exact Hh].
Defined.

(** X6.  After any session the engine's initialize event holds the frame,
    the renderer and the input device, followed by one listener for each
    [SetScene] of the session, in call order, whatever other calls came in
    between: distinct shader loaders, each bound to the texture loader
    and to the root of its call. *)
Theorem session_loaders t cs w this s :
  session t cs w = Some (this, s) →
  ∃ loaders,
    InitializeEvent (engineS s)
    = [GetFrame this; GetRenderer this; GetMouse this] ++ loaders
    ∧ Forall2
        (λ l p,
           heap s !! l = Some (Live (ShaderLoader (textureloader this) p)))
        loaders (call_roots cs)
    ∧ NoDup loaders.
Proof.
  intros H%session_calls.
  pose proof (SimpleSetup_new_intact t w) as Hi.
  destruct (facade_calls_account _ _ _ _ _ Hi H)
    as ((M1 & M2 & M3 & M4 & M5 & M6 & M7 & M8 & M9) & _).
  destruct (facade_calls_loaders _ _ _ _ _ Hi H)
    as (loaders & He & Hall & _ & Hnd).
  exists loaders. unfold GetFrame, GetRenderer, GetMouse.
  rewrite He, M3, M5, M6, M8. by split_and!.
Qed.

Lemma session_loaders_witness :
  ∃ this s,
    session "demo"
      [CallSetScene 0; CallEnableDebugging true; CallSetScene 10] demo
    = Some (this, s)
    ∧ ∃ loaders,
        InitializeEvent (engineS s) = [6; 8; 9] ++ loaders
        ∧ Forall2
            (λ l p, heap s !! l = Some (Live (ShaderLoader 17 p)))
            loaders [0; 10].
Proof.
  eexists _, _. split; [vm_compute; reflexivity|].
  edestruct (session_loaders "demo"
               [CallSetScene 0; CallEnableDebugging true; CallSetScene 10]
               demo)
    as (loaders & He & Hall & _); [vm_compute; reflexivity|].
  exists loaders. split; [exact He|exact Hall].
Defined.

(** X7.  After any session the search path is the one from before the
    construction followed by the directories of the session's
    [AddDataDirectory] calls, in call order; no other call adds to it. *)
Theorem session_search_path t cs w this s :
  session t cs w = Some (this, s) →
  searchPath (statics s) = searchPath (statics w) ++ call_dirs cs.
Proof.
  intros H%session_calls.
  pose proof (SimpleSetup_new_intact t w) as Hi.
  destruct (facade_calls_account _ _ _ _ _ Hi H) as (_ & _ & Hp & _).
  exact Hp.
Qed.

Lemma session_search_path_witness :
  ∃ this s,
    session "demo"
      [CallAddDataDirectory "models/"; CallSetScene 0;
       CallAddDataDirectory "textures/"] demo
    = Some (this, s)
    ∧ searchPath (statics s) = ["models/"; "textures/"].
Proof.
  eexists _, _. split; [vm_compute; reflexivity|].
  eapply (session_search_path "demo"
            [CallAddDataDirectory "models/"; CallSetScene 0;
             CallAddDataDirectory "textures/"] demo).
  vm_compute; reflexivity.
Defined.

(** X8.  After any session the log is the one from before the
    construction followed by the entries of the session's
    [EnableDebugging] calls, in call order: one error for a call that
    could not open the file, two informational entries for one that could.
    The constructor and the other mutators log nothing, and the loggers
    and plug-ins are those that were registered by the constructor. *)
Theorem session_log t cs w this s :
  session t cs w = Some (this, s) →
  log (statics s) = log (statics w) ++ call_log cs
  ∧ ∃ this0 s0,
      SimpleSetup_new t w = Some (this0, s0)
      ∧ loggers (statics s) = loggers (statics s0)
      ∧ modelPlugins (statics s) = modelPlugins (statics s0)
      ∧ texturePlugins (statics s) = texturePlugins (statics s0)
      ∧ shaderPlugins (statics s) = shaderPlugins (statics s0).
Proof.
  intros H%session_calls.
  pose proof (SimpleSetup_new_intact t w) as Hi.
  destruct (facade_calls_account _ _ _ _ _ Hi H)
    as (_ & _ & _ & Hl & S1 & S2 & S3 & S4).
  split; [exact Hl|].
  eexists _, _. split; [apply SimpleSetup_new_eq|]. by split_and!.
Qed.

Lemma session_log_witness :
  ∃ this s,
    session "demo"
      [CallEnableDebugging false; CallSetScene 0; CallEnableDebugging true]
      demo
    = Some (this, s)
    ∧ log (statics s)
      = [(Error, "Can not open 'scene.dot' for output");
         (Info, "Saved physics graph to 'scene.dot'");
         (Info, "To create a SVG image run: dot -Tsvg scene.dot > scene.svg")].
Proof.
  eexists _, _. split; [vm_compute; reflexivity|].
  edestruct (session_log "demo"
               [CallEnableDebugging false; CallSetScene 0;
                CallEnableDebugging true] demo)
    as (Hl & _); [vm_compute; reflexivity|].
  exact Hl.
Defined.

(** X9.  No call of a session destroys or changes an object that was
    there before the facade was constructed, with one exception: a scene
    node may have got more children, after those it had.  Cameras, viewing
    volumes, frusta and dead slots of the application are as they were,
    and its scene nodes keep their class, textures and children. *)
Theorem session_keeps_callers_objects t cs w this s p o :
  session t cs w = Some (this, s) →
  heap w !! p = Some o →
  match o with
  | Live (Node c ts subs) =>
      ∃ more, heap s !! p = Some (Live (Node c ts (subs ++ more)))
  | _ => heap s !! p = Some o
  end.
Proof.
  intros H%session_calls Hp.
  pose proof (SimpleSetup_new_intact t w) as Hi.
  assert (length (heap w) ≤ frustum (members t (length (heap w)))) as Hle
    by (cbn; lia).
  destruct (facade_calls_kept _ _ _ _ _ _ Hi Hle H) as (Hkept & _).
  pose proof (kept_trans _ _ _ _ (kept_app (length (heap w)) (heap w) _)
                Hkept p o Hp) as Hk.
  destruct o as [[]|]; try done.
  apply Hk. by eapply lookup_lt_Some.
Qed.

Lemma session_keeps_callers_objects_witness :
  ∃ this s,
    session "demo"
      [CallSetScene 0; CallEnableDebugging true;
       CallSetCamera (ByViewingVolume 3); CallSetCamera (ByCamera 4)] demo
    = Some (this, s)
    ∧ heap s !! 4 = Some (Live (Camera 3))
    ∧ ∃ more, heap s !! 0 = Some (Live (Node SceneNode [] ([1; 2] ++ more))).
Proof.
  eexists _, _. split; [vm_compute; reflexivity|]. split.
  - eapply (session_keeps_callers_objects "demo"
              [CallSetScene 0; CallEnableDebugging true;
               CallSetCamera (ByViewingVolume 3);
               CallSetCamera (ByCamera 4)] demo _ _ 4 (Live (Camera 3)));
      [vm_compute; reflexivity|reflexivity].
  - eapply (session_keeps_callers_objects "demo"
              [CallSetScene 0; CallEnableDebugging true;
               CallSetCamera (ByViewingVolume 3);
               CallSetCamera (ByCamera 4)] demo _ _ 0 (Live (Node SceneNode [] [1; 2])));
      [vm_compute; reflexivity|reflexivity].
Defined.

(** X10.  After any session the viewport follows the last camera
    replacement of the session, whatever other calls came in between or
    after.  With none, or with a last replacement by camera, it is bound
    to the facade's frustum, which decorates the current camera (the
    constructor's, or the one passed in).  With a last replacement by
    viewing volume [v] it is bound to the current camera, a camera that
    wraps [v]. *)
Theorem session_viewport_binding t cs w this s :
  session t cs w = Some (this, s) →
  ∃ this0 s0,
    SimpleSetup_new t w = Some (this0, s0)
    ∧ bound_as (GetCamera this0) (last_camera None cs) this s.
Proof.
  intros H%session_calls.
  eexists _, _. split; [apply SimpleSetup_new_eq|].
  eapply facade_calls_bound; [apply SimpleSetup_new_intact| |exact H].
  unfold GetCamera. cbn. split_and!; [done..|].
  eexists _, _. by rewrite lookup_app_plus.
Qed.

Lemma session_viewport_binding_witness :
  ∃ this s,
    session "demo"
      [CallSetCamera (ByCamera 4); CallSetCamera (ByViewingVolume 3);
       CallEnableDebugging false; CallSetScene 0] demo
    = Some (this, s)
    ∧ viewingVolume s = Some (GetCamera this)
    ∧ heap s !! GetCamera this = Some (Live (Camera 3)).
Proof.
  eexists _, _. split; [vm_compute; reflexivity|].
  edestruct (session_viewport_binding "demo"
               [CallSetCamera (ByCamera 4);
                CallSetCamera (ByViewingVolume 3);
                CallEnableDebugging false; CallSetScene 0] demo)
    as (this0 & s0 & _ & Hb); [vm_compute; reflexivity|].
  exact Hb.
Defined.



(** ** Key events *)

Lemma key_events_run K args : ∀ s q e,
  KeyEvent s = [q] → heap s !! q = Some (Live (QuitHandler e)) →
  ∃ s',
    key_events K args s = Some (tt, s')
    ∧ stopRequests (engineS s') = stopRequests (engineS s) + escapes K args
    ∧ InitializeEvent (engineS s') = InitializeEvent (engineS s)
    ∧ ProcessEvent (engineS s') = ProcessEvent (engineS s)
    ∧ DeinitializeEvent (engineS s') = DeinitializeEvent (engineS s)
    ∧ heap s' = heap s ∧ rendererS s' = rendererS s
    ∧ viewingVolume s' = viewingVolume s ∧ KeyEvent s' = KeyEvent s
    ∧ loaded s' = loaded s ∧ statics s' = statics s.
Proof.
  induction args as [|arg args IH]; intros s q e Hev Hq.
  { exists s. cbn. split; [done|]. split; [lia|done]. }
  cbn [key_events]. unfold escapes. cbn [List.filter].
  destruct (decide (sym arg = K)) as [Heq|Hne].
  - rewrite (bool_decide_eq_true_2 _ Heq).
    destruct (Engine_Stop s) as [[[] s1]|] eqn:Hstop; [|done].
    assert (Input_KeyEvent_Notify K arg s = Some (tt, s1)) as Hfire.
    { eapply Input_KeyEvent_Notify_eq; [done..|].
      unfold QuitHandler_Handle. by rewrite decide_True. }
    rewrite (bind_Some _ _ _ _ _ Hfire).
    injection Hstop as <-.
    match goal with |- context [key_events K args ?s1] =>
      destruct (IH s1 q e Hev Hq) as (s' & Hrun & Hst & Hrest)
    end.
    exists s'. split; [exact Hrun|]. split; [|exact Hrest].
    rewrite Hst. unfold escapes. cbn. lia.
  - rewrite (bool_decide_eq_false_2 _ Hne).
    assert (Input_KeyEvent_Notify K arg s = Some (tt, s)) as Hfire.
    { eapply Input_KeyEvent_Notify_eq; [done..|].
      unfold QuitHandler_Handle. by rewrite decide_False. }
    rewrite (bind_Some _ _ _ _ _ Hfire).
    apply (IH s q e Hev Hq).
Qed.

(** X12.  After any session, let the input device fire any list of key
    events.  All of them are handled, and the engine has then been asked
    to stop exactly as many times as the list has escape keys: the
    mutators never ask it to stop, and a key other than escape never
    does.  The event lists of the engine and everything outside the
    engine are as they were. *)
Theorem session_key_events K t cs w this s args :
  session t cs w = Some (this, s) →
  ∃ s',
    key_events K args s = Some (tt, s')
    ∧ stopRequests (engineS s') = escapes K args
    ∧ InitializeEvent (engineS s') = InitializeEvent (engineS s)
    ∧ ProcessEvent (engineS s') = ProcessEvent (engineS s)
    ∧ DeinitializeEvent (engineS s') = DeinitializeEvent (engineS s)
    ∧ heap s' = heap s ∧ rendererS s' = rendererS s
    ∧ viewingVolume s' = viewingVolume s ∧ KeyEvent s' = KeyEvent s
    ∧ loaded s' = loaded s ∧ statics s' = statics s.
Proof.
  intros H.
  pose proof (session_intact _ _ _ _ _ H) as ((q & Hev & Hq) & _).
  apply session_calls in H.
  destruct (facade_calls_account _ _ _ _ _ (SimpleSetup_new_intact t w) H)
    as (_ & (_ & _ & Hstop & _) & _).
  destruct (key_events_run K args s q _ Hev Hq) as (s' & Hrun & Hst & Hrest).
  exists s'. split; [exact Hrun|]. split; [|exact Hrest].
  rewrite Hst, Hstop. done.
Qed.

Lemma session_key_events_witness :
  ∃ this s,
    session "demo" [CallSetScene 0; CallEnableDebugging true] demo
    = Some (this, s)
    ∧ ∃ s',
        key_events 27 [{| sym := 13 |}; {| sym := 27 |}; {| sym := 32 |};
                       {| sym := 27 |}] s
        = Some (tt, s')
        ∧ stopRequests (engineS s') = 2.
Proof.
  eexists _, _. split; [vm_compute; reflexivity|].
  edestruct session_key_events
    with (K := 27) (t := "demo") (w := demo)
         (cs := [CallSetScene 0; CallEnableDebugging true])
         (args := [{| sym := 13 |}; {| sym := 27 |}; {| sym := 32 |};
                   {| sym := 27 |}])
    as (s' & Hrun & Hst & _); [vm_compute; reflexivity|].
  exists s'. split; [exact Hrun|exact Hst].
Defined.

(** ** How the mutators compose *)

(** X13.  [EnableDebugging] is not idempotent.  Called twice on a facade
    whose frustum and scene are live, it returns both times and the
    frustum's node is then twice among the children of the scene, as its
    last two; the log has the entries of both calls. *)
Theorem EnableDebugging_twice_adds_twice this s v b n c ts subs g1 g2 :
  heap s !! frustum this = Some (Live (Frustum v b n)) →
  heap s !! scene this = Some (Live (Node c ts subs)) →
  ∃ s',
    (EnableDebugging this g1;; EnableDebugging this g2) s = Some (tt, s')
    ∧ heap s' !! scene this = Some (Live (Node c ts (subs ++ [n; n])))
    ∧ heap s' !! frustum this = Some (Live (Frustum v true n))
    ∧ log (statics s')
      = log (statics s) ++ debug_entries g1 ++ debug_entries g2.
Proof.
  intros Hf Hs.
  assert (frustum this ≠ scene this) as Hne by congruence.
  pose proof (lookup_lt_Some _ _ _ Hf) as Hlf.
  pose proof (lookup_lt_Some _ _ _ Hs) as Hls.
  rewrite (bind_Some _ _ _ _ _ (EnableDebugging_eq _ g1 _ _ _ _ _ _ _ Hf Hs)).
  set (s1 := with_statics _ _).
  assert (heap s1 !! frustum this = Some (Live (Frustum v true n))) as Hf1.
  { cbn. rewrite list_lookup_insert_ne by done.
    by apply list_lookup_insert_eq. }
  assert (heap s1 !! scene this = Some (Live (Node c ts (subs ++ [n]))))
    as Hs1.
  { cbn. apply list_lookup_insert_eq. by rewrite length_insert. }
  rewrite (EnableDebugging_eq _ g2 _ _ _ _ _ _ _ Hf1 Hs1).
  eexists. split; [reflexivity|]. cbn. split_and!.
  - rewrite <- app_assoc. apply list_lookup_insert_eq.
    by rewrite !length_insert.
  - rewrite list_lookup_insert_ne by done. apply list_lookup_insert_eq.
    by rewrite !length_insert.
  - destruct g1, g2; cbn; by rewrite <- ?app_assoc.
Qed.

Lemma EnableDebugging_twice_adds_twice_witness :
  heap (wired demo) !! 15 = Some (Live (Frustum 13 false 14))
  ∧ heap (wired demo) !! 10 = Some (Live (Node SceneNode [] [23]))
  ∧ ∃ s',
      (EnableDebugging (members "demo" 5) false;;
       EnableDebugging (members "demo" 5) true) (wired demo)
      = Some (tt, s')
      ∧ heap s' !! 10 = Some (Live (Node SceneNode [] [23; 14; 14])).
Proof.
  split; [reflexivity|]. split; [reflexivity|].
  destruct (EnableDebugging_twice_adds_twice (members "demo" 5)
              (wired demo) 13 false 14 SceneNode [] [23] false true
              eq_refl eq_refl)
    as (s' & Hrun & Hscene & _).
  exists s'. split; [exact Hrun|exact Hscene].
Defined.

(** X14.  Replacing the camera after [EnableDebugging] leaves the debug
    node of the old frustum behind.  The frustum that was switched on is
    destroyed; the new frustum decorates the new camera and has a node of
    its own, a new object that the call puts into no scene; the scene
    keeps the node of the destroyed frustum as its last child. *)
Theorem SetCamera_Camera_after_EnableDebugging
    this s v b n c ts subs good cam :
  heap s !! frustum this = Some (Live (Frustum v b n)) →
  heap s !! scene this = Some (Live (Node c ts subs)) →
  ∃ this' s' b' n',
    (EnableDebugging this good;; SetCamera_Camera this cam) s
    = Some (this', s')
    ∧ heap s' !! frustum this = Some Dead
    ∧ heap s' !! frustum this' = Some (Live (Frustum cam b' n'))
    ∧ length (heap s) ≤ n'
    ∧ GetScene this' = GetScene this
    ∧ heap s' !! GetScene this' = Some (Live (Node c ts (subs ++ [n]))).
Proof.
  intros Hf Hs.
  assert (frustum this ≠ scene this) as Hne by congruence.
  pose proof (lookup_lt_Some _ _ _ Hf) as Hlf.
  pose proof (lookup_lt_Some _ _ _ Hs) as Hls.
  rewrite (bind_Some _ _ _ _ _
             (EnableDebugging_eq _ good _ _ _ _ _ _ _ Hf Hs)).
  set (s1 := with_statics _ _).
  assert (heap s1 !! frustum this = Some (Live (Frustum v true n))) as Hf1.
  { cbn. rewrite list_lookup_insert_ne by done.
    by apply list_lookup_insert_eq. }
  assert (length (heap s1) = length (heap s)) as Hlen
    by (cbn; by rewrite !length_insert).
  rewrite (SetCamera_Camera_eq _ cam _ _ _ _ Hf1).
  eexists _, _, _, (length (heap s)). split; [by rewrite Hlen|].
  unfold GetScene. cbn.
  set (h1 := <[frustum this:=Dead]> _).
  assert (length h1 = length (heap s)) as Hlen1
    by (unfold h1; by rewrite !length_insert).
  rewrite !length_insert.
  split_and!; [| | |done|].
  - rewrite lookup_app_l by lia. unfold h1.
    apply list_lookup_insert_eq. by rewrite !length_insert.
  - rewrite <- Hlen1 at 1. by rewrite lookup_app_plus.
  - done.
  - rewrite lookup_app_l by lia. unfold h1.
    rewrite list_lookup_insert_ne by done.
    apply list_lookup_insert_eq. by rewrite length_insert.
Qed.

Lemma SetCamera_Camera_after_EnableDebugging_witness :
  heap (wired demo) !! 15 = Some (Live (Frustum 13 false 14))
  ∧ heap (wired demo) !! 10 = Some (Live (Node SceneNode [] [23]))
  ∧ ∃ this' s' b' n',
      (EnableDebugging (members "demo" 5) true;;
       SetCamera_Camera (members "demo" 5) 4) (wired demo)
      = Some (this', s')
      ∧ heap s' !! 15 = Some Dead
      ∧ heap s' !! frustum this' = Some (Live (Frustum 4 b' n'))
      ∧ heap s' !! 10 = Some (Live (Node SceneNode [] [23; 14])).
Proof.
  split; [reflexivity|]. split; [reflexivity|].
  destruct (SetCamera_Camera_after_EnableDebugging (members "demo" 5)
              (wired demo) 13 false 14 SceneNode [] [23] true 4
              eq_refl eq_refl)
    as (this' & s' & b' & n' & Hrun & Hdead & Hnew & _ & Hsc & Hscene).
  exists this', s', b', n'.
  split_and!; [exact Hrun|exact Hdead|exact Hnew|].
  rewrite Hsc in Hscene. exact Hscene.
Defined.

(** X15.  [EnableDebugging] after a replacement by viewing volume shows
    the wrong frustum.  Let the facade's frustum decorate an object
    [vol] of the heap and let its scene be live.  After [SetCamera] by
    viewing volume, [EnableDebugging] returns, switches clip-plane
    visualisation on for the frustum that decorates [vol] and puts that
    frustum's node into the scene, while the current camera is another
    object, the new one, to which the viewport is bound. *)
Theorem EnableDebugging_after_SetCamera_IViewingVolume
    this s vol b n o c ts subs v good :
  heap s !! frustum this = Some (Live (Frustum vol b n)) →
  heap s !! vol = Some o →
  heap s !! scene this = Some (Live (Node c ts subs)) →
  ∃ this' s',
    (this' ← SetCamera_IViewingVolume this v;
     EnableDebugging this' good;; mret this') s
    = Some (this', s')
    ∧ heap s' !! frustum this' = Some (Live (Frustum vol true n))
    ∧ heap s' !! GetScene this' = Some (Live (Node c ts (subs ++ [n])))
    ∧ GetCamera this' ≠ vol
    ∧ heap s' !! GetCamera this' = Some (Live (Camera v))
    ∧ viewingVolume s' = Some (GetCamera this').
Proof.
  intros Hf Hv Hs.
  assert (frustum this ≠ scene this) as Hne by congruence.
  pose proof (lookup_lt_Some _ _ _ Hf) as Hlf.
  pose proof (lookup_lt_Some _ _ _ Hs) as Hls.
  pose proof (lookup_lt_Some _ _ _ Hv) as Hlv.
  rewrite (bind_Some _ _ _ _ _ (SetCamera_IViewingVolume_eq this v s)).
  set (this1 := set_camera _ _). set (s1 := with_viewingVolume _ _).
  assert (heap s1 !! frustum this1 = Some (Live (Frustum vol b n))) as Hf1
    by (cbn; by apply lookup_app_l_Some).
  assert (heap s1 !! scene this1 = Some (Live (Node c ts subs))) as Hs1
    by (cbn; by apply lookup_app_l_Some).
  rewrite (bind_Some _ _ _ _ _
             (EnableDebugging_eq _ good _ _ _ _ _ _ _ Hf1 Hs1)).
  eexists _, _. split; [reflexivity|].
  unfold GetScene, GetCamera. cbn.
  assert (length (heap s) ≠ scene this) by lia.
  assert (length (heap s) ≠ frustum this) by lia.
  split_and!; [| |lia| |done].
  - rewrite list_lookup_insert_ne by done.
    apply list_lookup_insert_eq. rewrite length_app. lia.
  - apply list_lookup_insert_eq. rewrite length_insert, length_app. lia.
  - rewrite !list_lookup_insert_ne by done. by apply list_lookup_middle.
Qed.

Lemma EnableDebugging_after_SetCamera_IViewingVolume_witness :
  heap (wired demo) !! 15 = Some (Live (Frustum 13 false 14))
  ∧ heap (wired demo) !! 13 = Some (Live (Camera 12))
  ∧ heap (wired demo) !! 10 = Some (Live (Node SceneNode [] [23]))
  ∧ ∃ this' s',
      (this' ← SetCamera_IViewingVolume (members "demo" 5) 3;
       EnableDebugging this' false;; mret this') (wired demo)
      = Some (this', s')
      ∧ heap s' !! frustum this' = Some (Live (Frustum 13 true 14))
      ∧ GetCamera this' ≠ 13.
Proof.
  split; [reflexivity|]. split; [reflexivity|]. split; [reflexivity|].
  destruct (EnableDebugging_after_SetCamera_IViewingVolume
              (members "demo" 5) (wired demo) 13 false 14
              (Live (Camera 12)) SceneNode [] [23] 3 false
              eq_refl eq_refl eq_refl)
    as (this' & s' & Hrun & Hfr & _ & Hne & _).
  exists this', s'. split_and!; [exact Hrun|exact Hfr|exact Hne].
Defined.

(** X16.  [SetScene] loads the textures of the new scene and no others:
    what it appends to the loaded textures are exactly the textures
    reachable from the root passed in, whatever the scene was before. *)
Theorem SetScene_loads_exactly this root s c ts subs :
  heap s !! root = Some (Live (Node c ts subs)) →
  ∃ this' s' new,
    SetScene this root s = Some (this', s')
    ∧ loaded s' = loaded s ++ new
    ∧ ∀ t, t ∈ new ↔ reachable_texture (heap s) root t.
Proof.
  intros H. eexists _, _, _. split; [by eapply SetScene_eq|].
  cbn. split; [reflexivity|]. intros t. split.
  - apply visit_sound.
  - apply visit_complete.
Qed.

Lemma SetScene_loads_exactly_witness :
  heap (wired demo) !! 0 = Some (Live (Node SceneNode [] [1; 2]))
  ∧ ∃ this' s' new,
      SetScene (members "demo" 5) 0 (wired demo) = Some (this', s')
      ∧ loaded s' = loaded (wired demo) ++ new
      ∧ ∀ t, t ∈ new ↔ reachable_texture (heap (wired demo)) 0 t.
Proof.
  split; [reflexivity|].
  exact (SetScene_loads_exactly (members "demo" 5) 0 (wired demo)
           SceneNode [] [1; 2] eq_refl).
Defined.
